(** * CSV merge-and-deduplicate scripts: a shallow embedding and its properties

    The development follows [scripts/combine_csvs.py] and
    [scripts/remove_unnamed_columns.py].

    Modelling conventions.
    - A Python [str] is a [string]; its characters are the code points
      U+0000..U+00FF, on which [str.strip], [str.isdigit] and [str.lower]
      are written out below.
    - A CSV file is represented by the sequence of records that [csv.reader]
      yields for it under the dialect found by [sniff_dialect]; a record is a
      list of cells.  [csv.writer.writerow] appends one record.
    - Python integers used as counters and indices are [nat]; the words of
      the digest are [Z] with the 32-bit wrap-around written out.
    - [SystemExit] and [IndexError] are outcomes of the run, next to a
      normal return.  Failures of the operating system (unreadable files,
      an output directory that cannot be made) are outside the model. *)

From stdpp Require Import gmap strings list fin_maps sorting.
From Stdlib Require Import ZArith Ascii String DecimalString Lia.
From Stdlib Require Import DecimalPos.

Local Open Scope Z_scope.

(** ** Python strings over U+0000..U+00FF *)

Module PyStr.

Definition ord (c : ascii) : Z := Z.of_N (N_of_ascii c).
Definition chr (n : Z) : ascii := ascii_of_N (Z.to_N n).

Definition between (lo hi n : Z) : bool := (lo <=? n) && (n <=? hi).

(** [str.isspace] on one character: TAB..CR, FS..US, SPACE, NEL, NBSP. *)
Definition isspace (c : ascii) : bool :=
  let n := ord c in
  between 9 13 n || between 28 32 n || (n =? 133) || (n =? 160).

(** [str.isdigit] on one character: '0'..'9' and the superscripts
    U+00B2, U+00B3, U+00B9. *)
Definition isdigit_char (c : ascii) : bool :=
  let n := ord c in
  between 48 57 n || (n =? 178) || (n =? 179) || (n =? 185).

(** The ASCII decimal digits, the only digits [float] and [int] read. *)
Definition is_ascii_digit (c : ascii) : bool := between 48 57 (ord c).

Definition lower_char (c : ascii) : ascii :=
  let n := ord c in
  if between 65 90 n || (between 192 222 n && negb (n =? 215))
  then chr (n + 32) else c.

Fixpoint forall_chars (p : ascii -> bool) (s : string) : bool :=
  match s with
  | EmptyString => true
  | String c s' => p c && forall_chars p s'
  end.

(** [s.isdigit()]: at least one character, and all of them digits. *)
Definition isdigit (s : string) : bool :=
  match s with
  | EmptyString => false
  | String _ _ => forall_chars isdigit_char s
  end.

Fixpoint lower (s : string) : string :=
  match s with
  | EmptyString => EmptyString
  | String c s' => String (lower_char c) (lower s')
  end.

Fixpoint lstrip (s : string) : string :=
  match s with
  | EmptyString => EmptyString
  | String c s' => if isspace c then lstrip s' else s
  end.

Fixpoint rstrip (s : string) : string :=
  match s with
  | EmptyString => EmptyString
  | String c s' =>
      match rstrip s' with
      | EmptyString => if isspace c then EmptyString else String c EmptyString
      | r => String c r
      end
  end.

(** [s.strip()] *)
Definition strip (s : string) : string := rstrip (lstrip s).

(** [s.replace(old, '', 1)] for a one-character [old]. *)
Fixpoint remove_first (old : ascii) (s : string) : string :=
  match s with
  | EmptyString => EmptyString
  | String c s' => if Ascii.eqb c old then s' else String c (remove_first old s')
  end.

(** [s.startswith(p)] *)
Fixpoint startswith (s p : string) : bool :=
  match p, s with
  | EmptyString, _ => true
  | String _ _, EmptyString => false
  | String a p', String c s' => Ascii.eqb c a && startswith s' p'
  end.

(** [s.endswith(p)] *)
Definition endswith (s p : string) : bool :=
  let ls := String.length s in
  let lp := String.length p in
  (lp <=? ls)%nat && String.eqb (String.substring (ls - lp) lp s) p.

(** [sep.join(cells)] *)
Fixpoint join (sep : string) (cells : list string) : string :=
  match cells with
  | [] => EmptyString
  | [c] => c
  | c :: cs => (c ++ sep ++ join sep cs)%string
  end.

(** [s.encode('utf-8')]: one byte below U+0080, two bytes up to U+00FF. *)
Definition encode_char (c : ascii) : list Z :=
  let n := ord c in
  if n <? 128 then [n]
  else [Z.lor 192 (Z.shiftr n 6); Z.lor 128 (Z.land n 63)].

Fixpoint encode_utf8 (s : string) : list Z :=
  match s with
  | EmptyString => []
  | String c s' => encode_char c ++ encode_utf8 s'
  end.

(** [str(n)] for an integer [n]. *)
Definition str_of_int (n : Z) : string := NilZero.string_of_int (Z.to_int n).

(** The order [sorted] uses on strings: lexicographic on code points. *)
Definition le (a b : string) : bool := String.leb a b.

End PyStr.

(** ** [float] on decimal literals, with IEEE-754 binary64 rounding *)

Module PyFloat.

(** A non-negative binary64 value: [Finite m e] stands for [m * 2^e],
    [Infinity] for the overflow value [inf]. *)
Inductive t : Type :=
| Finite (m e : Z)
| Infinity.

(** Reading the digits: the integer made of all digits and the number of
    digits after the point.  [None] when a character is neither an ASCII
    digit nor the first point. *)
Fixpoint scan (s : string) (seen_dot : bool) (acc : Z) (frac digits : nat)
  : option (Z * nat * nat) :=
  match s with
  | EmptyString => Some (acc, frac, digits)
  | String c s' =>
      if PyStr.is_ascii_digit c then
        scan s' seen_dot (10 * acc + (PyStr.ord c - 48))
             (if seen_dot then S frac else frac) (S digits)
      else if Ascii.eqb c "."%char && negb seen_dot then
        scan s' true acc frac digits
      else None
  end.

(** Largest [e] with [2^e <= n / d], for positive [n] and [d]. *)
Definition floor_log2_ratio (n d : Z) : Z :=
  let e0 := Z.log2 n - Z.log2 d in
  let ge :=
    if 0 <=? e0 then d * 2 ^ e0 <=? n else d <=? n * 2 ^ (- e0) in
  if ge then e0 else e0 - 1.

(** Round the quotient [n / d] to the nearest integer, ties to even. *)
Definition round_half_even (n d : Z) : Z :=
  let q := n / d in
  let r := n mod d in
  match 2 * r ?= d with
  | Lt => q
  | Gt => q + 1
  | Eq => if Z.even q then q else q + 1
  end.

(** The binary64 value nearest to [n / d] (round to nearest, ties to even;
    53-bit significand, least exponent -1074, overflow at 2^1024). *)
Definition round_binary64 (n d : Z) : t :=
  if n =? 0 then Finite 0 0
  else
    let e := floor_log2_ratio n d in
    let q := Z.max (e - 52) (-1074) in
    let m :=
      if 0 <=? q then round_half_even n (d * 2 ^ q)
      else round_half_even (n * 2 ^ (- q)) d in
    if 2 ^ 1024 <=? m * 2 ^ Z.max q 0 then Infinity else Finite m q.

(** [float(s)] for [s] made of ASCII digits and at most one point, with at
    least one digit; every other string is rejected ([ValueError]).
    Python's [float] reads further forms (signs, exponents, [inf], [nan],
    surrounding blanks); no caller in these scripts passes one. *)
Definition float (s : string) : option t :=
  match scan s false 0 0%nat 0%nat with
  | Some (n, frac, digits) =>
      if (digits =? 0)%nat then None
      else Some (round_binary64 n (10 ^ Z.of_nat frac))
  | None => None
  end.

(** [f.is_integer()] *)
Definition is_integer (f : t) : bool :=
  match f with
  | Finite m e => if 0 <=? e then true else m mod 2 ^ (- e) =? 0
  | Infinity => false
  end.

(** [int(f)] for a finite [f]; [OverflowError] on [inf]. *)
Definition int (f : t) : option Z :=
  match f with
  | Finite m e => Some (if 0 <=? e then m * 2 ^ e else m / 2 ^ (- e))
  | Infinity => None
  end.

End PyFloat.

(** ** SHA-256 (FIPS 180-4), as [hashlib.sha256] computes it *)

Module SHA256.

Definition mask32 : Z := 4294967295.
Definition w32 (x : Z) : Z := Z.land x mask32.
Definition add32 (x y : Z) : Z := w32 (x + y).
Definition rotr (n x : Z) : Z :=
  Z.lor (Z.shiftr x n) (w32 (Z.shiftl x (32 - n))).
Definition not32 (x : Z) : Z := Z.lxor x mask32.

Definition Ch (x y z : Z) : Z := Z.lxor (Z.land x y) (Z.land (not32 x) z).
Definition Maj (x y z : Z) : Z :=
  Z.lxor (Z.lxor (Z.land x y) (Z.land x z)) (Z.land y z).
Definition Sigma0 (x : Z) : Z := Z.lxor (Z.lxor (rotr 2 x) (rotr 13 x)) (rotr 22 x).
Definition Sigma1 (x : Z) : Z := Z.lxor (Z.lxor (rotr 6 x) (rotr 11 x)) (rotr 25 x).
Definition sigma0 (x : Z) : Z := Z.lxor (Z.lxor (rotr 7 x) (rotr 18 x)) (Z.shiftr x 3).
Definition sigma1 (x : Z) : Z := Z.lxor (Z.lxor (rotr 17 x) (rotr 19 x)) (Z.shiftr x 10).

(** The round constants and the initial hash value are given by FIPS 180-4
    as the first 32 bits of the fractional parts of the cube roots of the
    first 64 primes and of the square roots of the first 8 primes. *)
Definition is_prime (p : Z) : bool :=
  forallb (fun d => negb (p mod d =? 0)) (seqZ 2 (p - 2)).

Definition primes : list Z := filter (fun p => is_prime p = true) (seqZ 2 310).

(** The largest [r] below [2 ^ bits] with [r ^ 3 <= n], found bit by bit. *)
Fixpoint cube_root (bits : nat) (n r : Z) : Z :=
  match bits with
  | O => r
  | S b =>
      let r' := r + 2 ^ Z.of_nat b in
      cube_root b n (if r' * r' * r' <=? n then r' else r)
  end.

Definition K : list Z :=
  Eval vm_compute in
    (fun p => w32 (cube_root 40 (p * 2 ^ 96) 0)) <$> primes.

Definition H0 : list Z :=
  Eval vm_compute in
    (fun p => w32 (Z.sqrt (p * 2 ^ 64))) <$> take 8 primes.

(** Big-endian bytes of a [k]-byte unsigned number. *)
Fixpoint be_bytes (k : nat) (x : Z) : list Z :=
  match k with
  | O => []
  | S k' => Z.land (Z.shiftr x (8 * Z.of_nat k')) 255 :: be_bytes k' x
  end.

(** The message followed by the bit 1, zero bits up to 56 mod 64 bytes and
    the bit length on 64 bits. *)
Definition pad (msg : list Z) : list Z :=
  let len := Z.of_nat (List.length msg) in
  msg ++ [128] ++ replicate (Z.to_nat ((55 - len) mod 64)) 0
      ++ be_bytes 8 (8 * len).

Fixpoint words_of_bytes (bs : list Z) : list Z :=
  match bs with
  | b0 :: b1 :: b2 :: b3 :: rest =>
      Z.lor (Z.shiftl b0 24) (Z.lor (Z.shiftl b1 16) (Z.lor (Z.shiftl b2 8) b3))
      :: words_of_bytes rest
  | _ => []
  end.

Definition word_at (w : list Z) (i : nat) : Z := nth i w 0.

(** Extend the schedule [w] (of length [t]) by [k] more words. *)
Fixpoint extend (k : nat) (w : list Z) : list Z :=
  match k with
  | O => w
  | S k' =>
      let t := List.length w in
      let x :=
        add32 (add32 (sigma1 (word_at w (t - 2))) (word_at w (t - 7)))
              (add32 (sigma0 (word_at w (t - 15))) (word_at w (t - 16))) in
      extend k' (w ++ [x])
  end.

Definition schedule (block : list Z) : list Z := extend 48 block.

Record regs : Type :=
  Regs { ra : Z; rb : Z; rc : Z; rd : Z; re : Z; rf : Z; rg : Z; rh : Z }.

Definition round (s : regs) (kw : Z * Z) : regs :=
  let t1 :=
    add32 (add32 (add32 (rh s) (Sigma1 (re s))) (Ch (re s) (rf s) (rg s)))
          (add32 (fst kw) (snd kw)) in
  let t2 := add32 (Sigma0 (ra s)) (Maj (ra s) (rb s) (rc s)) in
  Regs (add32 t1 t2) (ra s) (rb s) (rc s) (add32 (rd s) t1) (re s) (rf s) (rg s).

Definition regs_of_list (h : list Z) : regs :=
  Regs (word_at h 0) (word_at h 1) (word_at h 2) (word_at h 3)
       (word_at h 4) (word_at h 5) (word_at h 6) (word_at h 7).

Definition list_of_regs (s : regs) : list Z :=
  [ra s; rb s; rc s; rd s; re s; rf s; rg s; rh s].

Definition compress (h : list Z) (block : list Z) : list Z :=
  let s := fold_left round (zip K (schedule block)) (regs_of_list h) in
  zip_with add32 h (list_of_regs s).

(** Compress the 16-word blocks of [ws] one after the other. *)
Fixpoint blocks (n : nat) (h : list Z) (ws : list Z) : list Z :=
  match n with
  | O => h
  | S n' => blocks n' (compress h (take 16 ws)) (drop 16 ws)
  end.

(** [hashlib.sha256(msg).digest()]: 32 bytes. *)
Definition digest (msg : list Z) : list Z :=
  let ws := words_of_bytes (pad msg) in
  let h := blocks (List.length ws / 16) H0 ws in
  flat_map (be_bytes 4) h.

End SHA256.

(** ** The outcomes of a script and the loops with an early exit *)

(** How a call ends: a normal return, [raise SystemExit(msg)], or an
    [IndexError] from a subscript out of range. *)
Inductive Outcome (A : Type) : Type :=
| Returned (a : A)
| SystemExit (msg : string)
| IndexError.
Arguments Returned {A} a.
Arguments SystemExit {A} msg.
Arguments IndexError {A}.

(** One iteration of a loop body: go on with a new state, or leave the loop
    by an exception, in the state reached when it was raised. *)
Inductive Step (S : Type) : Type :=
| Next (s : S)
| Raise (s : S).
Arguments Next {S} s.
Arguments Raise {S} s.

(** [for x in l: body] *)
Fixpoint for_each {A S : Type} (body : S -> A -> Step S) (l : list A) (st : S)
  : Step S :=
  match l with
  | [] => Next st
  | x :: l' =>
      match body st x with
      | Next st' => for_each body l' st'
      | Raise st' => Raise st'
      end
  end.

(** A record of a CSV file: its cells. *)
Abbreviation Row := (list string).

(** An entry of a directory: its name, whether [os.path.isfile] holds of it,
    and the records [csv.reader] yields when it is opened and read. *)
Record DirEntry : Type := mkEntry {
  entry_name : string;
  entry_isfile : bool;
  entry_records : list Row
}.

(** [row[i] for i in idx], raising [IndexError] ([None]) out of range. *)
Definition select (row : Row) (idx : list nat) : option Row :=
  mapM (fun i => row !! i) idx.

(** [enumerate(l)] *)
Definition enumerate {A : Type} (l : list A) : list (nat * A) :=
  imap (fun i x => (i, x)) l.

(** [sorted(entries)] on the names: a stable insertion sort. *)
Fixpoint insert_by_name (e : DirEntry) (l : list DirEntry) : list DirEntry :=
  match l with
  | [] => [e]
  | x :: l' =>
      if PyStr.le (entry_name e) (entry_name x) then e :: l
      else x :: insert_by_name e l'
  end.

Definition sorted_by_name (l : list DirEntry) : list DirEntry :=
  foldr insert_by_name [] l.

(** [f.lower().endswith('.csv')] together with [os.path.isfile] *)
Definition is_csv_file (e : DirEntry) : bool :=
  entry_isfile e && PyStr.endswith (PyStr.lower (entry_name e)) ".csv".

(** ** scripts/combine_csvs.py *)

Module CombineCsvs.

(** [list_csvs(directory)]; [listing] is what [os.listdir] returns. *)
Definition list_csvs (listing : list DirEntry) : list DirEntry :=
  filter (fun e => is_csv_file e = true) (sorted_by_name listing).

(** [read_header(path)]: the first record, or [[]] on [StopIteration]. *)
Definition read_header (f : DirEntry) : Row :=
  match entry_records f with
  | [] => []
  | hdr :: _ => hdr
  end.

(** [{name: i for i, name in enumerate(header)}]: the entries are stored
    one after the other, a later one replacing an earlier one of the
    same name. *)
Definition idx_by_name (header : Row) : gmap string nat :=
  foldl (fun (m : gmap string nat) (p : nat * string) => <[p.2 := p.1]> m)
        ∅ (enumerate header).

Definition build_index_map (src_header dst_header : Row) : list (option nat) :=
  let m := idx_by_name src_header in
  (fun name => m !! name) <$> dst_header.

Definition row_to_dst (row : Row) (idx_map : list (option nat)) : Row :=
  (fun idx : option nat =>
     match idx with
     | None => ""%string
     | Some i =>
         if (i <? List.length row)%nat then default ""%string (row !! i)
         else ""%string
     end) <$> idx_map.

(** The separator ['\0']. *)
Definition NUL : string := String Ascii.zero EmptyString.

Definition hash_row (cells : Row) : list Z :=
  SHA256.digest (PyStr.encode_utf8 (PyStr.join NUL cells)).

Definition _normalize_for_key (val : string) : string :=
  let s := PyStr.strip val in
  if PyStr.isdigit (PyStr.remove_first "."%char s) then
    match PyFloat.float s with
    | Some f =>
        if PyFloat.is_integer f then
          match PyFloat.int f with
          | Some n => PyStr.str_of_int n
          | None => PyStr.lower s
          end
        else PyStr.lower s
    | None => PyStr.lower s
    end
  else PyStr.lower s.

Definition KEY_COLUMNS : list string := ["game_id"%string; "play_id"%string].

(** The dictionary [totals]. *)
Record Totals : Type := mkTotals {
  files : nat;
  rows_in : nat;
  duplicates_skipped : nat;
  rows_out : nat
}.

(** The mutable state of a run: the two sets of seen keys, the counters
    and the records written to the output so far. *)
Record Run : Type := mkRun {
  seen_full_rows : gset (list Z);
  seen_keys : gset (list string);
  totals : Totals;
  out_f : list Row
}.

Definition count_file (st : Run) : Run :=
  let t := totals st in
  mkRun (seen_full_rows st) (seen_keys st)
        (mkTotals (files t + 1) (rows_in t) (duplicates_skipped t) (rows_out t))
        (out_f st).

Definition count_row_in (st : Run) : Run :=
  let t := totals st in
  mkRun (seen_full_rows st) (seen_keys st)
        (mkTotals (files t) (rows_in t + 1) (duplicates_skipped t) (rows_out t))
        (out_f st).

Definition count_duplicate (st : Run) : Run :=
  let t := totals st in
  mkRun (seen_full_rows st) (seen_keys st)
        (mkTotals (files t) (rows_in t) (duplicates_skipped t + 1) (rows_out t))
        (out_f st).

Definition add_key (k : list string) (st : Run) : Run :=
  mkRun (seen_full_rows st) ({[k]} ∪ seen_keys st) (totals st) (out_f st).

Definition add_hash (h : list Z) (st : Run) : Run :=
  mkRun ({[h]} ∪ seen_full_rows st) (seen_keys st) (totals st) (out_f st).

(** [writer.writerow(out_row)] followed by [totals['rows_out'] += 1] *)
Definition write_row (out_row : Row) (st : Run) : Run :=
  let t := totals st in
  mkRun (seen_full_rows st) (seen_keys st)
        (mkTotals (files t) (rows_in t) (duplicates_skipped t) (rows_out t + 1))
        (out_f st ++ [out_row]).

(** [tuple(_normalize_for_key(out_row[i]) for i in key_idx if i is not None)] *)
Definition k_tuple (key_idx : list (option nat)) (out_row : Row)
  : option (list string) :=
  mapM (fun i => _normalize_for_key <$> out_row !! i) (omap id key_idx).

(** The body of [for row in reader]. *)
Definition process_row (use_key : bool) (key_idx idx_map : list (option nat))
    (st : Run) (row : Row) : Step Run :=
  let st := count_row_in st in
  let out_row := row_to_dst row idx_map in
  let keyed : option (bool * Run) :=
    if use_key then
      match k_tuple key_idx out_row with
      | None => None
      | Some k =>
          if bool_decide (k ∈ seen_keys st)
          then Some (true, count_duplicate st)
          else Some (false, add_key k st)
      end
    else Some (false, st) in
  match keyed with
  | None => Raise st
  | Some (is_dup, st) =>
      let '(is_dup, st) :=
        if negb use_key && negb is_dup then
          let key_hash := hash_row out_row in
          if bool_decide (key_hash ∈ seen_full_rows st)
          then (true, count_duplicate st)
          else (false, add_hash key_hash st)
        else (is_dup, st) in
      if is_dup then Next st else Next (write_row out_row st)
  end.

(** The body of [for path in files]. *)
Definition process_file (canonical_header : Row) (use_key : bool)
    (key_idx : list (option nat)) (st : Run) (f : DirEntry) : Step Run :=
  let st := count_file st in
  match entry_records f with
  | [] => Next st
  | src_header :: rows =>
      let idx_map := build_index_map src_header canonical_header in
      for_each (process_row use_key key_idx idx_map) rows st
  end.

(** The first loop: the header of the first file that has a non-empty one. *)
Fixpoint first_header (files : list DirEntry) : Row :=
  match files with
  | [] => []
  | f :: rest =>
      match read_header f with
      | [] => first_header rest
      | hdr => hdr
      end
  end.

(** What the run can change outside itself: the directory of the output
    path and the output file ([None] while it does not exist). *)
Record Disk : Type := mkDisk {
  out_dir_exists : bool;
  out_csv : option (list Row)
}.

Definition no_files_msg (input_dir : string) : string :=
  ("No CSV files found in " ++ input_dir)%string.
Definition all_empty_msg : string :=
  "All CSV files are empty; nothing to combine."%string.

Definition initial_run (canonical_header : Row) : Run :=
  mkRun ∅ ∅ (mkTotals 0 0 0 0) [canonical_header].

Definition key_idx_of (canonical_header : Row) : list (option nat) :=
  (fun name => idx_by_name canonical_header !! name) <$> KEY_COLUMNS.

Definition use_key_of (key_idx : list (option nat)) : bool :=
  forallb (fun i : option nat => bool_decide (i ≠ None)) key_idx.

(** [combine_csvs(input_dir, output_csv)], where [listing] is the content
    of [input_dir] and [disk] the state of the output path, which lies
    outside [input_dir]. *)
Definition combine_csvs (input_dir : string) (listing : list DirEntry)
    (disk : Disk) : Outcome Totals * Disk :=
  let files := list_csvs listing in
  match files with
  | [] => (SystemExit (no_files_msg input_dir), disk)
  | _ :: _ =>
      let canonical_header := first_header files in
      match canonical_header with
      | [] => (SystemExit all_empty_msg, disk)
      | _ :: _ =>
          let key_idx := key_idx_of canonical_header in
          let use_key := use_key_of key_idx in
          match for_each (process_file canonical_header use_key key_idx)
                         files (initial_run canonical_header) with
          | Next st => (Returned (totals st), mkDisk true (Some (out_f st)))
          | Raise st => (IndexError, mkDisk true (Some (out_f st)))
          end
      end
  end.

End CombineCsvs.

(** ** scripts/remove_unnamed_columns.py *)

Module RemoveUnnamedColumns.

(** [not (h or '').strip().startswith('Unnamed')] *)
Definition kept (h : string) : bool :=
  negb (PyStr.startswith (PyStr.strip h) "Unnamed").

(** [[i for i, h in enumerate(header) if not ...]] *)
Definition keep_idx_of (header : Row) : list nat :=
  fst <$> filter (fun p : nat * string => kept p.2 = true) (enumerate header).

(** The defensive padding of a short row. *)
Definition pad_row (header row : Row) : Row :=
  if (List.length row <? List.length header)%nat
  then row ++ replicate (List.length header - List.length row) ""%string
  else row.

(** The rows written to the temporary file, or [None] when a subscript
    fails. *)
Definition filtered (header : Row) (keep_idx : list nat) (rows : list Row)
  : option (list Row) :=
  hdr ← select header keep_idx;
  body ← mapM (fun row => select (pad_row header row) keep_idx) rows;
  Some (hdr :: body).

(** [remove_unnamed_columns(csv_path)]: the outcome and the records of the
    file at [csv_path] afterwards. *)
Definition remove_unnamed_columns (records : list Row)
  : Outcome nat * list Row :=
  match records with
  | [] => (Returned 0%nat, records)
  | header :: rows =>
      let keep_idx := keep_idx_of header in
      let removed := (List.length header - List.length keep_idx)%nat in
      if (removed =? 0)%nat then (Returned 0%nat, records)
      else
        match filtered header keep_idx rows with
        | Some records' => (Returned removed, records')
        | None => (IndexError, records)
        end
  end.

End RemoveUnnamedColumns.

(** ** Reference definitions used to state the properties *)

Module Spec.

Import CombineCsvs.

(** The key by which a row is recognised as a duplicate: the tuple of the
    normalised key cells, or the digest of the whole row. *)
Inductive DedupKey : Type :=
| SemanticKey (k : list string)
| ContentHash (h : list Z).

#[global] Instance DedupKey_eq_dec : EqDecision DedupKey.
Proof. solve_decision. Defined.

(** The mode of a run, read off the canonical header. *)
Definition use_key (canonical_header : Row) : bool :=
  use_key_of (key_idx_of canonical_header).

Definition dedup_key (canonical_header : Row) (out_row : Row) : DedupKey :=
  if use_key canonical_header
  then SemanticKey (default [] (k_tuple (key_idx_of canonical_header) out_row))
  else ContentHash (hash_row out_row).

(** First occurrence wins: a row is kept unless its key was seen before. *)
Fixpoint keep_first {K : Type} `{EqDecision K} (key : Row -> K)
    (seen : list K) (rows : list Row) : list Row :=
  match rows with
  | [] => []
  | r :: rest =>
      if decide (key r ∈ seen) then keep_first key seen rest
      else r :: keep_first key (key r :: seen) rest
  end.

(** The data rows of one file, each mapped to the canonical columns. *)
Definition mapped_file (canonical_header : Row) (f : DirEntry) : list Row :=
  match entry_records f with
  | [] => []
  | src_header :: rows =>
      (fun row => row_to_dst row (build_index_map src_header canonical_header))
        <$> rows
  end.

(** The mapped data rows of all files, in the order they are read. *)
Definition mapped_rows (canonical_header : Row) (files : list DirEntry)
  : list Row :=
  flat_map (mapped_file canonical_header) files.

(** The index of the first occurrence of [name] in [header]. *)
Fixpoint first_index (name : string) (header : Row) : option nat :=
  match header with
  | [] => None
  | h :: rest =>
      if decide (h = name) then Some 0%nat else S <$> first_index name rest
  end.

(** "A numeric pattern containing at most one decimal point and otherwise
    only digits". *)
Fixpoint count_points (s : string) : nat :=
  match s with
  | EmptyString => 0%nat
  | String c s' => ((if Ascii.eqb c "."%char then 1 else 0) + count_points s')%nat
  end.

Definition digit_or_point (c : ascii) : bool :=
  PyStr.isdigit_char c || Ascii.eqb c "."%char.

Definition numeric_pattern (s : string) : bool :=
  (count_points s <=? 1)%nat && PyStr.forall_chars digit_or_point s.

(** The normalisation as the four steps describe it: trim; on a numeric
    pattern parse as a float and, when the parsed value has no fractional
    part, give its integer representation; otherwise lowercase. *)
Definition normalize (cell : string) : string :=
  let s := PyStr.strip cell in
  if numeric_pattern s then
    match PyFloat.float s with
    | Some f =>
        if PyFloat.is_integer f
        then PyStr.str_of_int (default 0 (PyFloat.int f))
        else PyStr.lower s
    | None => PyStr.lower s
    end
  else PyStr.lower s.

(** The number written by a string of decimal digits. *)
Fixpoint digits_value_from (acc : Z) (ds : string) : Z :=
  match ds with
  | EmptyString => acc
  | String c ds' => digits_value_from (10 * acc + (PyStr.ord c - 48)) ds'
  end.

Definition digits_value (ds : string) : Z := digits_value_from 0 ds.

Definition is_zero_char (c : ascii) : bool := Ascii.eqb c "0"%char.

(** The cell of [row] at position [i], empty when the row is too short. *)
Definition cell (row : Row) (i : nat) : string := default ""%string (row !! i).

(** The records of a file after its header. *)
Definition data_rows (f : DirEntry) : list Row := tail (entry_records f).

(** Whether the run in state [st] has seen the key [k]. *)
Definition seen_of (st : Run) (k : DedupKey) : Prop :=
  match k with
  | SemanticKey t => t ∈ seen_keys st
  | ContentHash h => h ∈ seen_full_rows st
  end.

#[global] Instance seen_of_dec (st : Run) (k : DedupKey) :
  Decision (seen_of st k).
Proof. destruct k; simpl; apply _. Defined.

(** Recording the key [k] as seen. *)
Definition register (k : DedupKey) (st : Run) : Run :=
  match k with
  | SemanticKey t => add_key t st
  | ContentHash h => add_hash h st
  end.

(** The state [st'] is the state [st] after [nfiles] more files with the
    mapped rows [rows], the keys of [seen] having been met before. *)
Definition advances (key : Row -> DedupKey) (seen : list DedupKey)
    (nfiles : nat) (rows : list Row) (st st' : Run) : Prop :=
  let kept := keep_first key seen rows in
  out_f st' = out_f st ++ kept
  /\ files (totals st') = (files (totals st) + nfiles)%nat
  /\ rows_in (totals st') = (rows_in (totals st) + List.length rows)%nat
  /\ rows_out (totals st') = (rows_out (totals st) + List.length kept)%nat
  /\ (duplicates_skipped (totals st') + List.length kept
      = duplicates_skipped (totals st) + List.length rows)%nat
  /\ (forall k, seen_of st' k <-> k ∈ (key <$> rows) ++ seen).

End Spec.

(** ** The files of the worked scenarios *)

Module Scenario.

Local Open Scope string_scope.

Definition a_csv : DirEntry :=
  mkEntry "a.csv" true [["id"; "val"]; ["1"; "x"]; ["2"; "y"]].
Definition b_csv : DirEntry :=
  mkEntry "b.csv" true [["val"; "id"]; ["y"; "2"]; ["z"; "3"]].
Definition merged : list Row :=
  [["id"; "val"]; ["1"; "x"]; ["2"; "y"]; ["3"; "z"]].

(** A file keyed by game and play, with cells that differ from their
    normalised form. *)
Definition plays_csv : DirEntry :=
  mkEntry "plays.csv" true
    [["game_id"; "play_id"; "yards"];
     ["7"; "1.0"; "12"]; [" 7.00 "; "1"; "12"]; ["7.0"; "2"; "ABC"]].

Definition notes_txt : DirEntry := mkEntry "notes.txt" true [["id"]; ["1"]].
Definition empty_csv : DirEntry := mkEntry "empty.csv" true [].

Definition fresh_disk : CombineCsvs.Disk := CombineCsvs.mkDisk false None.


End Scenario.

(** ** The command lines of the two scripts *)

(** What a script finds at a path: whether it is a directory
    ([os.path.isdir]) and what [os.listdir] returns for it. *)
Record FileSystem : Type := mkFS {
  fs_isdir : string -> bool;
  fs_listdir : string -> list DirEntry
}.

Module CombineMain.

Import CombineCsvs.

Definition usage_msg : string :=
  "Usage: combine_csvs.py <input_dir> <output_csv>"%string.

Definition not_a_directory_msg (path : string) : string :=
  ("Not a directory: " ++ path)%string.

(** The four lines printed after a run. *)
Definition report (stats : Totals) : list string :=
  [ ("Processed " ++ PyStr.str_of_int (Z.of_nat (files stats)) ++ " file(s)")%string;
    ("Rows read: " ++ PyStr.str_of_int (Z.of_nat (rows_in stats)))%string;
    ("Duplicates removed: "
       ++ PyStr.str_of_int (Z.of_nat (duplicates_skipped stats)))%string;
    ("Rows written: " ++ PyStr.str_of_int (Z.of_nat (rows_out stats)))%string ].

(** [main(argv)]: the outcome (the value returned is the exit status), the
    lines printed, and the state of the output path [argv[2]]. *)
Definition main (argv : list string) (fs : FileSystem) (disk : Disk)
  : Outcome Z * list string * Disk :=
  match argv with
  | [_; input_dir; _] =>
      if negb (fs_isdir fs input_dir)
      then (Returned 2, [not_a_directory_msg input_dir], disk)
      else
        match combine_csvs input_dir (fs_listdir fs input_dir) disk with
        | (Returned stats, disk') => (Returned 0, report stats, disk')
        | (SystemExit msg, disk') => (SystemExit msg, [], disk')
        | (IndexError, disk') => (IndexError, [], disk')
        end
  | _ => (Returned 2, [usage_msg], disk)
  end.

End CombineMain.

Module StripperMain.

Import RemoveUnnamedColumns.

(** [find_csv_files(directory)] *)
Definition find_csv_files (listing : list DirEntry) : list DirEntry :=
  filter (fun e => is_csv_file e = true) (sorted_by_name listing).

Definition usage_msg : string :=
  "Usage: remove_unnamed_columns.py <directory>"%string.

Definition not_a_directory_msg (path : string) : string :=
  ("Not a directory: " ++ path)%string.

(** The line printed for one file; [os.path.basename] of the path joined
    from the directory and the entry is the name of the entry. *)
Definition file_line (name : string) (removed : nat) : string :=
  (name ++ ": removed " ++ PyStr.str_of_int (Z.of_nat removed)
        ++ " Unnamed column(s)")%string.

Definition total_line (total : nat) : string :=
  ("TOTAL columns removed across files: "
     ++ PyStr.str_of_int (Z.of_nat total))%string.

(** The file at the path of the entry [name] gets the records [records]. *)
Definition replace_file (name : string) (records : list Row)
    (listing : list DirEntry) : list DirEntry :=
  (fun e => if String.eqb (entry_name e) name
            then mkEntry (entry_name e) (entry_isfile e) records else e)
    <$> listing.

(** The state of the loop of [main]: the directory, the running total and
    the lines printed so far. *)
Record Loop : Type := mkLoop {
  directory : list DirEntry;
  total_removed_cols : nat;
  printed : list string
}.

(** The body of [for path in files].  The names of a directory are
    distinct, so the file opened at the path has the records it had when
    the directory was listed. *)
Definition process_path (st : Loop) (f : DirEntry) : Step Loop :=
  match remove_unnamed_columns (entry_records f) with
  | (Returned removed, records') =>
      Next (mkLoop (replace_file (entry_name f) records' (directory st))
                   (total_removed_cols st + removed)
                   (printed st ++ [file_line (entry_name f) removed]))
  | (_, _) => Raise st
  end.

(** [main(argv)]: the outcome, the lines printed and the content of the
    directory [argv[1]] afterwards. *)
Definition main (argv : list string) (fs : FileSystem)
  : Outcome Z * list string * option (list DirEntry) :=
  match argv with
  | _ :: target_dir :: _ =>
      if negb (fs_isdir fs target_dir)
      then (Returned 2, [not_a_directory_msg target_dir], None)
      else
        let listing := fs_listdir fs target_dir in
        let files := find_csv_files listing in
        match for_each process_path files (mkLoop listing 0 []) with
        | Next st =>
            (Returned 0,
             printed st ++ [total_line (total_removed_cols st)],
             Some (directory st))
        | Raise st => (IndexError, printed st, Some (directory st))
        end
  | _ => (Returned 2, [usage_msg], None)
  end.

End StripperMain.

(** ** Further reference definitions *)

Module Ref.

(** Reading back the bytes of [encode_utf8]. *)
Fixpoint decode_utf8 (bs : list Z) : string :=
  match bs with
  | [] => EmptyString
  | b :: rest =>
      if b <? 128 then String (PyStr.chr b) (decode_utf8 rest)
      else
        match rest with
        | [] => EmptyString
        | b2 :: rest' =>
            String (PyStr.chr (Z.lor (Z.shiftl (Z.land b 3) 6) (Z.land b2 63)))
                   (decode_utf8 rest')
        end
  end.

(** The string has no NUL character. *)
Definition nul_free (s : string) : bool :=
  PyStr.forall_chars (fun c => negb (Ascii.eqb c Ascii.zero)) s.



(** The order of [sorted] on the entries of a directory. *)
Definition name_le (e1 e2 : DirEntry) : Prop :=
  PyStr.le (entry_name e1) (entry_name e2) = true.





(** [n / d < 2^k] for positive [n] and [d], also for a negative [k],
    without fractions. *)
Definition ratio_below (n d k : Z) : Prop :=
  if 0 <=? k then n < d * 2 ^ k else n * 2 ^ (- k) < d.

End Ref.

(** ** A directory and two file systems for the worked command lines *)

Module Demo.

Local Open Scope string_scope.







(** A file that has neither key column. *)
Definition yards_csv : DirEntry :=
  mkEntry "yards.csv" true [["yards"]; ["3"]; ["8"]].

End Demo.

(** * Properties *)

(** ** The dictionary from names to indices *)

Section IndexMap.
Import CombineCsvs.

Lemma enumerate_snoc {A : Type} (l : list A) (x : A) :
  enumerate (l ++ [x]) = enumerate l ++ [(List.length l, x)].
Proof.
  unfold enumerate. rewrite imap_app. simpl. by rewrite Nat.add_0_r.
Qed.

Lemma idx_by_name_snoc (header : Row) (name : string) :
  idx_by_name (header ++ [name]) =
  <[name := List.length header]> (idx_by_name header).
Proof.
  unfold idx_by_name. by rewrite enumerate_snoc, foldl_app.
Qed.

(** The dictionary holds, for a name, the index of its last occurrence. *)
Lemma idx_by_name_Some (header : Row) (name : string) (i : nat) :
  idx_by_name header !! name = Some i <->
  header !! i = Some name /\ (forall j, header !! j = Some name -> (j <= i)%nat).
Proof.
  revert i. induction header as [|x header IH] using rev_ind; intros i.
  - unfold idx_by_name. simpl. rewrite lookup_empty. split; [done|].
    by intros [? _].
  - rewrite idx_by_name_snoc. destruct (decide (x = name)) as [->|Hne].
    + rewrite lookup_insert_eq. split.
      * intros [= <-]. split.
        -- by rewrite lookup_app_r, Nat.sub_diag.
        -- intros j Hj. apply lookup_lt_Some in Hj.
           rewrite length_app in Hj. simpl in Hj. lia.
      * intros [Hi Hmax]. f_equal.
        assert ((header ++ [name]) !! List.length header = Some name) as Hl
          by (by rewrite lookup_app_r, Nat.sub_diag).
        apply Hmax in Hl. apply lookup_lt_Some in Hi.
        rewrite length_app in Hi. simpl in Hi. lia.
    + rewrite lookup_insert_ne by done. rewrite IH. split.
      * intros [Hi Hmax]. split.
        -- by apply lookup_app_l_Some.
        -- intros j Hj. apply Hmax.
           destruct (decide (j < List.length header)%nat) as [Hlt|Hge].
           ++ by rewrite lookup_app_l in Hj.
           ++ rewrite lookup_app_r in Hj by lia.
              by destruct (j - List.length header)%nat; simplify_eq/=.
      * intros [Hi Hmax].
        assert (i < List.length header)%nat as Hlt.
        { apply lookup_lt_Some in Hi as Hlen. rewrite length_app in Hlen.
          simpl in Hlen.
          destruct (decide (i = List.length header)) as [->|]; [|lia].
          rewrite lookup_app_r, Nat.sub_diag in Hi by lia. simpl in Hi.
          congruence. }
        rewrite lookup_app_l in Hi by done. split; [done|].
        intros j Hj. apply Hmax. by apply lookup_app_l_Some.
Qed.

Lemma idx_by_name_None (header : Row) (name : string) :
  idx_by_name header !! name = None <-> name ∉ header.
Proof.
  induction header as [|x header IH] using rev_ind.
  - unfold idx_by_name. simpl. rewrite lookup_empty. split; [|done].
    intros _ H. by apply elem_of_nil in H.
  - rewrite idx_by_name_snoc, lookup_insert_None, IH.
    rewrite elem_of_app, list_elem_of_singleton. split.
    + intros [Hh Hx] [Hin| ->]; [by apply Hh|by apply Hx].
    + intros Hnot. split; [intros Hin; apply Hnot; by left|].
      intros ->. apply Hnot. by right.
Qed.

Lemma idx_by_name_is_Some (header : Row) (name : string) :
  name ∈ header -> exists i, idx_by_name header !! name = Some i.
Proof.
  intros Hin. destruct (idx_by_name header !! name) as [i|] eqn:E; [eauto|].
  by apply idx_by_name_None in E.
Qed.

Lemma idx_by_name_lt (header : Row) (name : string) (i : nat) :
  idx_by_name header !! name = Some i -> (i < List.length header)%nat.
Proof. intros [H _]%idx_by_name_Some. by apply lookup_lt_Some in H. Qed.

Lemma length_build_index_map (src dst : Row) :
  List.length (build_index_map src dst) = List.length dst.
Proof. unfold build_index_map. by rewrite length_fmap. Qed.

Lemma length_row_to_dst (row : Row) (idx_map : list (option nat)) :
  List.length (row_to_dst row idx_map) = List.length idx_map.
Proof. unfold row_to_dst. by rewrite length_fmap. Qed.
End IndexMap.

(** ** The files found in the input directory *)

Section Listing.
Import CombineCsvs.

Lemma elem_of_insert_by_name (e x : DirEntry) (l : list DirEntry) :
  x ∈ insert_by_name e l <-> x = e \/ x ∈ l.
Proof.
  induction l as [|y l IH]; simpl.
  - by rewrite list_elem_of_singleton, elem_of_nil; intuition.
  - destruct (PyStr.le _ _); rewrite !elem_of_cons; [done|].
    rewrite IH. intuition.
Qed.

Lemma elem_of_sorted_by_name (x : DirEntry) (l : list DirEntry) :
  x ∈ sorted_by_name l <-> x ∈ l.
Proof.
  induction l as [|y l IH]; simpl; [done|].
  rewrite elem_of_insert_by_name, elem_of_cons, IH. done.
Qed.

Lemma elem_of_list_csvs (e : DirEntry) (listing : list DirEntry) :
  e ∈ list_csvs listing <-> is_csv_file e = true /\ e ∈ listing.
Proof.
  unfold list_csvs. by rewrite list_elem_of_filter, elem_of_sorted_by_name.
Qed.

Lemma list_csvs_nil (listing : list DirEntry) :
  list_csvs listing = [] <-> forall e, e ∈ listing -> is_csv_file e = false.
Proof.
  split.
  - intros Hnil e He. destruct (is_csv_file e) eqn:E; [|done].
    assert (e ∈ list_csvs listing) as Hin by (by apply elem_of_list_csvs).
    rewrite Hnil in Hin. by apply elem_of_nil in Hin.
  - intros Hall. destruct (list_csvs listing) as [|e l] eqn:E; [done|].
    assert (e ∈ list_csvs listing) as Hin by (rewrite E; left).
    apply elem_of_list_csvs in Hin as [Hcsv Hin].
    rewrite (Hall e Hin) in Hcsv. done.
Qed.

Lemma first_header_nil (files : list DirEntry) :
  first_header files = [] <-> forall f, f ∈ files -> read_header f = [].
Proof.
  induction files as [|f files IH]; simpl.
  - split; [|done]. intros _ f Hf. by apply elem_of_nil in Hf.
  - destruct (read_header f) as [|c hdr] eqn:E.
    + rewrite IH. split.
      * intros Hall g [->|Hg]%elem_of_cons; [done|by apply Hall].
      * intros Hall g Hg. apply Hall. by right.
    + split; [done|]. intros Hall.
      specialize (Hall f ltac:(left)). congruence.
Qed.
End Listing.

(** ** Keeping the first occurrence of every key *)

Section KeepFirst.
Import Spec.
Context {K : Type} `{EqDecision K} (key : Row -> K).

Lemma keep_first_ext (s1 s2 : list K) (rows : list Row) :
  (forall k, k ∈ s1 <-> k ∈ s2) ->
  keep_first key s1 rows = keep_first key s2 rows.
Proof.
  revert s1 s2. induction rows as [|r rows IH]; intros s1 s2 Heq; simpl; [done|].
  destruct (decide (key r ∈ s1)) as [H1|H1], (decide (key r ∈ s2)) as [H2|H2].
  - by apply IH.
  - by apply Heq in H1.
  - by apply Heq in H2.
  - f_equal. apply IH. intros k. rewrite !elem_of_cons. by rewrite Heq.
Qed.

Lemma keep_first_app (seen : list K) (l1 l2 : list Row) :
  keep_first key seen (l1 ++ l2) =
  keep_first key seen l1 ++ keep_first key ((key <$> l1) ++ seen) l2.
Proof.
  revert seen. induction l1 as [|r l1 IH]; intros seen; simpl; [done|].
  destruct (decide (key r ∈ seen)) as [Hin|Hnin].
  - rewrite IH. f_equal. apply keep_first_ext. intros k.
    rewrite elem_of_cons. split; [by right|]. by intros [->|?]; [set_solver|].
  - simpl. rewrite IH. f_equal. f_equal. apply keep_first_ext. intros k.
    rewrite !elem_of_app, !elem_of_cons, elem_of_app. tauto.
Qed.

Lemma keep_first_sublist (seen : list K) (rows : list Row) :
  keep_first key seen rows `sublist_of` rows.
Proof.
  revert seen. induction rows as [|r rows IH]; intros seen; simpl; [done|].
  destruct (decide (key r ∈ seen)).
  - by apply sublist_cons.
  - by apply sublist_skip.
Qed.

Lemma length_keep_first (seen : list K) (rows : list Row) :
  (List.length (keep_first key seen rows) <= List.length rows)%nat.
Proof. apply sublist_length, keep_first_sublist. Qed.

(** The rows kept carry keys that are new and pairwise distinct. *)
Lemma keep_first_keys (seen : list K) (rows : list Row) :
  NoDup (key <$> keep_first key seen rows)
  /\ (forall r, r ∈ keep_first key seen rows -> key r ∉ seen).
Proof.
  revert seen. induction rows as [|r rows IH]; intros seen; simpl.
  - split; [constructor|]. intros r Hr. by apply elem_of_nil in Hr.
  - destruct (decide (key r ∈ seen)) as [Hin|Hnin]; [apply IH|].
    destruct (IH (key r :: seen)) as [Hnd Hnew]. split.
    + simpl. constructor; [|done]. intros (r' & Heq & Hr')%list_elem_of_fmap.
      apply Hnew in Hr'. apply Hr'. rewrite Heq. left.
    + intros r' [->|Hr']%elem_of_cons; [done|].
      apply Hnew in Hr'. intros Hs. apply Hr'. by right.
Qed.

(** Rows with new and pairwise distinct keys are all kept. *)
Lemma keep_first_all (seen : list K) (rows : list Row) :
  NoDup (key <$> rows) ->
  (forall r, r ∈ rows -> key r ∉ seen) ->
  keep_first key seen rows = rows.
Proof.
  revert seen. induction rows as [|r rows IH]; intros seen Hnd Hnew; simpl; [done|].
  simpl in Hnd. apply NoDup_cons in Hnd as [Hr Hnd].
  destruct (decide (key r ∈ seen)) as [Hin|Hnin].
  - exfalso. by apply (Hnew r); [left|].
  - f_equal. apply IH; [done|]. intros r' Hr' [Heq|Hs]%elem_of_cons.
    + apply Hr. rewrite <- Heq. by apply list_elem_of_fmap_2.
    + apply (Hnew r'); [by right|done].
Qed.

End KeepFirst.

(** ** The row loop and the file loop *)

Section Loops.
Import CombineCsvs Spec.
Variable canonical_header : Row.

Let key := dedup_key canonical_header.
Let key_idx := key_idx_of canonical_header.

(** The key positions lie inside every row of canonical width, so the
    subscripts [out_row[i]] of the key tuple cannot fail. *)
Lemma k_tuple_is_Some (out_row : Row) :
  List.length out_row = List.length canonical_header ->
  is_Some (k_tuple key_idx out_row).
Proof.
  intros Hlen. unfold k_tuple. apply mapM_is_Some, Forall_forall.
  intros i Hi. apply list_elem_of_omap in Hi as (o & Ho & Hoi).
  simpl in Hoi. subst o. unfold key_idx, key_idx_of in Ho.
  apply list_elem_of_fmap in Ho as (name & Hname & _). symmetry in Hname.
  apply idx_by_name_lt in Hname. rewrite <- Hlen in Hname.
  apply lookup_lt_is_Some in Hname as [c Hc]. simpl. rewrite Hc. by eexists.
Qed.

Lemma advances_refl (seen : list DedupKey) (st : Run) :
  (forall k, seen_of st k <-> k ∈ seen) -> advances key seen 0 [] st st.
Proof.
  intros Hseen. unfold advances. simpl.
  rewrite app_nil_r, !Nat.add_0_r. done.
Qed.

Lemma advances_trans (seen : list DedupKey) (n1 n2 : nat)
    (r1 r2 : list Row) (st st1 st2 : Run) :
  advances key seen n1 r1 st st1 ->
  advances key ((key <$> r1) ++ seen) n2 r2 st1 st2 ->
  advances key seen (n1 + n2) (r1 ++ r2) st st2.
Proof.
  unfold advances. intros (Ho1 & Hf1 & Hi1 & Hw1 & Hd1 & Hs1).
  intros (Ho2 & Hf2 & Hi2 & Hw2 & Hd2 & Hs2).
  rewrite keep_first_app, !length_app, fmap_app.
  rewrite Ho2, Ho1, Hf2, Hf1, Hi2, Hi1, Hw2, Hw1, <- app_assoc.
  split; [done|]. split; [lia|]. split; [lia|]. split; [lia|].
  split; [lia|]. intros k. rewrite Hs2, !elem_of_app. tauto.
Qed.

Lemma seen_of_register (k k' : DedupKey) (st : Run) :
  seen_of (register k st) k' <-> k' = k \/ seen_of st k'.
Proof.
  destruct k as [t|h], k' as [t'|h']; simpl;
    rewrite ?elem_of_union, ?elem_of_singleton;
    split; intros H; try tauto;
    destruct H as [H|H]; try tauto; try discriminate;
    left; congruence.
Qed.

(** One row: counted as read, then either counted as a duplicate or
    registered and written, according to its key alone. *)
Lemma process_row_eq (idx_map : list (option nat)) (st : Run) (row : Row) :
  List.length idx_map = List.length canonical_header ->
  let out_row := row_to_dst row idx_map in
  process_row (use_key canonical_header) key_idx idx_map st row =
  Next (if decide (seen_of st (key out_row))
        then count_duplicate (count_row_in st)
        else write_row out_row (register (key out_row) (count_row_in st))).
Proof.
  intros Hlen out_row.
  assert (List.length out_row = List.length canonical_header) as Hout
    by (unfold out_row; by rewrite length_row_to_dst).
  unfold process_row. fold out_row.
  destruct (use_key canonical_header) eqn:Hmode.
  - destruct (k_tuple_is_Some out_row Hout) as [k Hk].
    fold key_idx. rewrite Hk.
    assert (key out_row = SemanticKey k) as ->.
    { unfold key, dedup_key. rewrite Hmode. fold key_idx. by rewrite Hk. }
    simpl. destruct (decide (k ∈ seen_keys st)) as [Hin|Hnin].
    + by rewrite bool_decide_eq_true_2.
    + by rewrite bool_decide_eq_false_2.
  - assert (key out_row = ContentHash (hash_row out_row)) as ->.
    { unfold key, dedup_key. by rewrite Hmode. }
    simpl. destruct (decide (hash_row out_row ∈ seen_full_rows st)) as [Hin|Hnin].
    + by rewrite bool_decide_eq_true_2.
    + by rewrite bool_decide_eq_false_2.
Qed.

Lemma process_row_spec (idx_map : list (option nat)) (seen : list DedupKey)
    (st : Run) (row : Row) :
  List.length idx_map = List.length canonical_header ->
  (forall k, seen_of st k <-> k ∈ seen) ->
  exists st',
    process_row (use_key canonical_header) key_idx idx_map st row = Next st'
    /\ advances key seen 0 [row_to_dst row idx_map] st st'.
Proof.
  intros Hlen Hseen. rewrite process_row_eq by done.
  eexists; split; [done|]. unfold advances. simpl.
  set (out_row := row_to_dst row idx_map).
  destruct (decide (seen_of st (key out_row))) as [Hdup|Hnew].
  - rewrite decide_True by (by apply Hseen). simpl.
    rewrite app_nil_r. repeat split; try lia.
    + intros Hs. right. apply Hseen. by destruct k.
    + intros [->|Hs]%elem_of_cons; [by destruct (key out_row)|].
      apply Hseen in Hs. by destruct k.
  - rewrite decide_False by (intros Hs; by apply Hseen in Hs). simpl.
    assert (forall st0 k, seen_of (write_row out_row st0) k <-> seen_of st0 k)
      as Hw by (by intros ? []).
    assert (forall k, seen_of (count_row_in st) k <-> seen_of st k)
      as Hc by (by intros []).
    assert (forall k s, out_f (register k s) = out_f s
                        /\ totals (register k s) = totals s) as Hr
      by (by intros [] ?).
    destruct (Hr (key out_row) (count_row_in st)) as [-> ->]. simpl.
    split_and!; try lia; [done|].
    intros k'. rewrite Hw, seen_of_register, Hc, elem_of_cons, Hseen. done.
Qed.
Lemma process_rows_spec (idx_map : list (option nat)) (rows : list Row)
    (seen : list DedupKey) (st : Run) :
  List.length idx_map = List.length canonical_header ->
  (forall k, seen_of st k <-> k ∈ seen) ->
  exists st',
    for_each (process_row (use_key canonical_header) key_idx idx_map) rows st
      = Next st'
    /\ advances key seen 0
         ((fun row => row_to_dst row idx_map) <$> rows) st st'.
Proof.
  intros Hlen. revert seen st.
  induction rows as [|row rows IH]; intros seen st Hseen; simpl.
  - eexists; split; [done|]. by apply advances_refl.
  - destruct (process_row_spec idx_map seen st row Hlen Hseen)
      as (st1 & -> & Hadv1).
    destruct (IH ((key <$> [row_to_dst row idx_map]) ++ seen) st1)
      as (st2 & -> & Hadv2); [apply Hadv1|].
    eexists; split; [done|].
    apply (advances_trans seen 0 0 [row_to_dst row idx_map] _ st st1 st2);
      done.
Qed.

Lemma process_file_spec (f : DirEntry) (seen : list DedupKey) (st : Run) :
  (forall k, seen_of st k <-> k ∈ seen) ->
  exists st',
    process_file canonical_header (use_key canonical_header) key_idx st f
      = Next st'
    /\ advances key seen 1 (mapped_file canonical_header f) st st'.
Proof.
  intros Hseen. unfold process_file, mapped_file.
  assert (advances key seen 1 [] st (count_file st)) as Hcount.
  { unfold advances. simpl. rewrite app_nil_r, !Nat.add_0_r.
    split_and!; try done. }
  destruct (entry_records f) as [|src_header rows].
  - eexists; split; [done|]. done.
  - destruct (process_rows_spec (build_index_map src_header canonical_header)
                rows seen (count_file st)) as (st1 & -> & Hadv).
    + apply length_build_index_map.
    + intros k. rewrite <- Hseen. by destruct k.
    + eexists; split; [done|].
      apply (advances_trans seen 1 0 [] _ st (count_file st) st1); done.
Qed.

Lemma process_files_spec (files : list DirEntry) (seen : list DedupKey)
    (st : Run) :
  (forall k, seen_of st k <-> k ∈ seen) ->
  exists st',
    for_each (process_file canonical_header (use_key canonical_header) key_idx)
             files st = Next st'
    /\ advances key seen (List.length files)
         (mapped_rows canonical_header files) st st'.
Proof.
  revert seen st.
  induction files as [|f files IH]; intros seen st Hseen; simpl.
  - eexists; split; [done|]. by apply advances_refl.
  - destruct (process_file_spec f seen st Hseen) as (st1 & -> & Hadv1).
    destruct (IH ((key <$> mapped_file canonical_header f) ++ seen) st1)
      as (st2 & -> & Hadv2); [apply Hadv1|].
    eexists; split; [done|].
    by apply (advances_trans seen 1 (List.length files) _ _ st st1 st2).
Qed.
End Loops.

(** ** The run as a whole *)

Section Run.
Import CombineCsvs Spec.

(** The three ways a run ends, with what it returns and leaves on disk. *)
Lemma combine_csvs_cases (input_dir : string) (listing : list DirEntry)
    (disk : Disk) :
  let csvs := list_csvs listing in
  let canon := first_header csvs in
  let mapped := mapped_rows canon csvs in
  let kept := keep_first (dedup_key canon) [] mapped in
  (csvs = []
   /\ combine_csvs input_dir listing disk
      = (SystemExit (no_files_msg input_dir), disk))
  \/ (csvs <> [] /\ canon = []
      /\ combine_csvs input_dir listing disk = (SystemExit all_empty_msg, disk))
  \/ (csvs <> [] /\ canon <> []
      /\ combine_csvs input_dir listing disk
         = (Returned (mkTotals (List.length csvs) (List.length mapped)
                        (List.length mapped - List.length kept)
                        (List.length kept)),
            mkDisk true (Some (canon :: kept)))).
Proof.
  intros csvs canon mapped kept. subst mapped kept. unfold combine_csvs.
  fold csvs. fold canon. clearbody canon. clearbody csvs.
  destruct (decide (csvs = [])) as [Hnil|Hcsvs].
  { left. by rewrite Hnil. }
  right. destruct csvs as [|f0 csvs0] eqn:Ecsvs; [done|]. rewrite <- Ecsvs in *.
  destruct (decide (canon = [])) as [Hnil|Hcanon].
  { left. by rewrite Hnil. }
  right. split; [done|]. split; [done|].
  destruct canon as [|c0 canon0] eqn:Ecanon; [done|]. rewrite <- Ecanon in *.
  destruct (process_files_spec canon csvs [] (initial_run canon))
    as (st & Hrun & Hadv).
  { intros [t|h]; simpl; set_solver. }
  unfold use_key in Hrun. rewrite Hrun.
  destruct Hadv as (Hout & Hfiles & Hin & Hw & Hd & _).
  pose proof (length_keep_first (dedup_key canon) []
                (mapped_rows canon csvs)) as Hle.
  rewrite Hout. clear Hrun Hout.
  destruct (totals st) as [nf ni nd no].
  cbn [initial_run totals out_f app CombineCsvs.files rows_in
       duplicates_skipped rows_out] in *.
  f_equal. f_equal. f_equal; lia.
Qed.

Lemma combine_csvs_Returned (input_dir : string) (listing : list DirEntry)
    (disk disk' : Disk) (t : Totals) :
  combine_csvs input_dir listing disk = (Returned t, disk') ->
  let csvs := list_csvs listing in
  let canon := first_header csvs in
  let mapped := mapped_rows canon csvs in
  let kept := keep_first (dedup_key canon) [] mapped in
  csvs <> [] /\ canon <> []
  /\ t = mkTotals (List.length csvs) (List.length mapped)
                  (List.length mapped - List.length kept) (List.length kept)
  /\ disk' = mkDisk true (Some (canon :: kept)).
Proof.
  intros Hrun csvs canon mapped kept.
  destruct (combine_csvs_cases input_dir listing disk)
    as [[_ H]|[(_ & _ & H)|(Hf & Hc & H)]];
    rewrite H in Hrun; [done|done|].
  by injection Hrun as <- <-.
Qed.
End Run.

(** ** Regression vectors for the digest and the float reader *)

Example sha256_abc :
  SHA256.digest (PyStr.encode_utf8 "abc") =
  [0xba; 0x78; 0x16; 0xbf; 0x8f; 0x01; 0xcf; 0xea; 0x41; 0x41; 0x40; 0xde;
   0x5d; 0xae; 0x22; 0x23; 0xb0; 0x03; 0x61; 0xa3; 0x96; 0x17; 0x7a; 0x9c;
   0xb4; 0x10; 0xff; 0x61; 0xf2; 0x00; 0x15; 0xad].
Proof. vm_compute. reflexivity. Qed.

Example sha256_empty :
  SHA256.digest [] =
  [0xe3; 0xb0; 0xc4; 0x42; 0x98; 0xfc; 0x1c; 0x14; 0x9a; 0xfb; 0xf4; 0xc8;
   0x99; 0x6f; 0xb9; 0x24; 0x27; 0xae; 0x41; 0xe4; 0x64; 0x9b; 0x93; 0x4c;
   0xa4; 0x95; 0x99; 0x1b; 0x78; 0x52; 0xb8; 0x55].
Proof. vm_compute. reflexivity. Qed.

Example sha256_constants :
  List.length SHA256.K = 64%nat
  /\ SHA256.K !! 0%nat = Some 0x428a2f98 /\ SHA256.K !! 63%nat = Some 0xc67178f2
  /\ SHA256.H0 !! 0%nat = Some 0x6a09e667 /\ SHA256.H0 !! 7%nat = Some 0x5be0cd19.
Proof. vm_compute. done. Qed.

Example float_tenth :
  PyFloat.float "0.1" = Some (PyFloat.Finite 7205759403792794 (-56)).
Proof. vm_compute. reflexivity. Qed.

Example float_ties_to_even :
  PyFloat.float "9007199254740993" = Some (PyFloat.Finite 4503599627370496 1).
Proof. vm_compute. reflexivity. Qed.

(** ** The accounting of rows *)

Section Accounting.
Import CombineCsvs Spec.

Lemma length_mapped_file (canon : Row) (f : DirEntry) :
  List.length (mapped_file canon f) = List.length (data_rows f).
Proof.
  unfold mapped_file, data_rows.
  destruct (entry_records f); simpl; [done|]. by rewrite length_fmap.
Qed.

Lemma length_mapped_rows (canon : Row) (csvs : list DirEntry) :
  List.length (mapped_rows canon csvs)
  = sum_list ((fun f => List.length (data_rows f)) <$> csvs).
Proof.
  induction csvs as [|f csvs IH]; simpl; [done|].
  by rewrite length_app, length_mapped_file, IH.
Qed.
End Accounting.

(** C1. When [combine_csvs] returns, the counters satisfy
    [rows_in = rows_out + duplicates_skipped]; [rows_in] is the number of
    records that follow the header in the CSV files of the directory, and
    [rows_out] the number of records written after the header of the
    output. *)
Theorem combine_csvs_rows_accounting (input_dir : string)
    (listing : list DirEntry) (disk disk' : CombineCsvs.Disk)
    (t : CombineCsvs.Totals) :
  CombineCsvs.combine_csvs input_dir listing disk = (Returned t, disk') ->
  CombineCsvs.rows_in t
  = (CombineCsvs.rows_out t + CombineCsvs.duplicates_skipped t)%nat
  /\ CombineCsvs.rows_in t
     = sum_list ((fun f => List.length (Spec.data_rows f))
                   <$> CombineCsvs.list_csvs listing)
  /\ exists header rows,
       CombineCsvs.out_csv disk' = Some (header :: rows)
       /\ List.length rows = CombineCsvs.rows_out t.
Proof.
  intros Hrun. apply combine_csvs_Returned in Hrun as (_ & _ & -> & ->).
  cbn [CombineCsvs.rows_in CombineCsvs.rows_out CombineCsvs.duplicates_skipped
       CombineCsvs.out_csv].
  set (canon := CombineCsvs.first_header (CombineCsvs.list_csvs listing)).
  pose proof (length_keep_first (Spec.dedup_key canon) []
                (Spec.mapped_rows canon (CombineCsvs.list_csvs listing))) as Hle.
  split; [lia|]. split; [apply length_mapped_rows|]. by eexists _, _.
Qed.

Lemma combine_csvs_rows_accounting_witness :
  CombineCsvs.combine_csvs "in" [Scenario.b_csv; Scenario.a_csv]
    Scenario.fresh_disk
  = (Returned (CombineCsvs.mkTotals 2 4 1 3),
     CombineCsvs.mkDisk true (Some Scenario.merged))
  /\ (4 = 3 + 1)%nat.
Proof.
  assert (CombineCsvs.combine_csvs "in" [Scenario.b_csv; Scenario.a_csv]
            Scenario.fresh_disk
          = (Returned (CombineCsvs.mkTotals 2 4 1 3),
             CombineCsvs.mkDisk true (Some Scenario.merged))) as Hrun
    by (vm_compute; reflexivity).
  split; [exact Hrun|].
  exact (proj1 (combine_csvs_rows_accounting _ _ _ _ _ Hrun)).
Defined.

(** C2. Merging [a.csv] (header [id,val], rows (1,x), (2,y)) and [b.csv]
    (header [val,id], rows (y,2), (z,3)) writes the header [id,val] and
    the three rows (1,x), (2,y), (3,z), whatever the order in which the
    directory lists the two files: the row (y,2) of [b.csv] is mapped to
    (2,y), found to be a duplicate and skipped. *)
Theorem combine_csvs_two_files (input_dir : string) (disk : CombineCsvs.Disk) :
  CombineCsvs.combine_csvs input_dir [Scenario.a_csv; Scenario.b_csv] disk
  = (Returned (CombineCsvs.mkTotals 2 4 1 3),
     CombineCsvs.mkDisk true
       (Some [["id"; "val"]; ["1"; "x"]; ["2"; "y"]; ["3"; "z"]]))
  /\ CombineCsvs.combine_csvs input_dir [Scenario.b_csv; Scenario.a_csv] disk
     = CombineCsvs.combine_csvs input_dir [Scenario.a_csv; Scenario.b_csv] disk.
Proof. split; vm_compute; reflexivity. Qed.

(** ** The column mapping *)

(** C3, counterexample.  On a source header that repeats a name the first
    occurrence does not win: the dictionary keeps the index stored last, so
    the canonical column [x] is mapped to index 2 of the source header
    [x,y,x], not to index 0 of the first occurrence. *)
Lemma build_index_map_repeated_name :
  CombineCsvs.build_index_map ["x"; "y"; "x"] ["x"] = [Some 2%nat]
  /\ CombineCsvs.build_index_map ["x"; "y"; "x"] ["x"]
     <> [Spec.first_index "x" ["x"; "y"; "x"]].
Proof. split; [vm_compute; reflexivity|vm_compute; discriminate]. Qed.

(** C3, amended. [build_index_map] returns one entry per canonical column
    and raises no error; the entry of a column whose name does not occur in
    the source header is [None], and otherwise it is the index of the last
    occurrence of the name in the source header. *)
Theorem build_index_map_last_occurrence (src_header dst_header : Row) :
  List.length (CombineCsvs.build_index_map src_header dst_header)
  = List.length dst_header
  /\ forall (j : nat) (name : string),
       dst_header !! j = Some name ->
       ((name ∉ src_header)
        /\ CombineCsvs.build_index_map src_header dst_header !! j = Some None)
       \/ (exists i : nat,
             CombineCsvs.build_index_map src_header dst_header !! j
             = Some (Some i)
             /\ src_header !! i = Some name
             /\ forall i', src_header !! i' = Some name -> (i' <= i)%nat).
Proof.
  split; [apply length_build_index_map|].
  intros j name Hj. unfold CombineCsvs.build_index_map.
  rewrite list_lookup_fmap, Hj. simpl.
  destruct (CombineCsvs.idx_by_name src_header !! name) as [i|] eqn:E.
  - right. exists i. apply idx_by_name_Some in E as [Hi Hmax]. done.
  - left. by apply idx_by_name_None in E.
Qed.

Lemma build_index_map_last_occurrence_witness :
  (["x"] : Row) !! 0%nat = Some "x"
  /\ ((("x" ∉ (["x"; "y"; "x"] : Row))
       /\ CombineCsvs.build_index_map ["x"; "y"; "x"] ["x"] !! 0%nat = Some None)
      \/ (exists i : nat,
            CombineCsvs.build_index_map ["x"; "y"; "x"] ["x"] !! 0%nat
            = Some (Some i)
            /\ (["x"; "y"; "x"] : Row) !! i = Some "x"
            /\ forall i', (["x"; "y"; "x"] : Row) !! i' = Some "x" -> (i' <= i)%nat)).
Proof.
  split; [reflexivity|].
  apply (proj2 (build_index_map_last_occurrence ["x"; "y"; "x"] ["x"]) 0%nat "x").
  reflexivity.
Defined.

(** C7. [row_to_dst] returns a row for every row and every mapping, with
    one cell per mapping entry: the cell is [row[i]] when the entry is the
    index [i] and [i] is less than the length of the row, and the empty
    string when the entry is [None] or the index is not less than the
    length of the row. *)
Theorem row_to_dst_total (row : Row) (idx_map : list (option nat)) :
  List.length (CombineCsvs.row_to_dst row idx_map) = List.length idx_map
  /\ (forall j i, idx_map !! j = Some (Some i) -> (i < List.length row)%nat ->
        exists c, row !! i = Some c
                  /\ CombineCsvs.row_to_dst row idx_map !! j = Some c)
  /\ (forall j i, idx_map !! j = Some (Some i) -> (List.length row <= i)%nat ->
        CombineCsvs.row_to_dst row idx_map !! j = Some ""%string)
  /\ (forall j, idx_map !! j = Some None ->
        CombineCsvs.row_to_dst row idx_map !! j = Some ""%string).
Proof.
  split; [apply length_row_to_dst|]. unfold CombineCsvs.row_to_dst.
  split_and!.
  - intros j i Hj Hi. rewrite list_lookup_fmap, Hj. simpl.
    destruct (lookup_lt_is_Some_2 row i Hi) as [c Hc]. exists c.
    split; [done|]. apply Nat.ltb_lt in Hi. by rewrite Hi, Hc.
  - intros j i Hj Hi. rewrite list_lookup_fmap, Hj. simpl.
    apply Nat.ltb_ge in Hi. by rewrite Hi.
  - intros j Hj. by rewrite list_lookup_fmap, Hj.
Qed.

Lemma row_to_dst_total_witness :
  CombineCsvs.row_to_dst ["a"; "b"] [Some 1%nat; None; Some 5%nat]
  = ["b"; ""; ""]
  /\ (exists c, (["a"; "b"] : Row) !! 1%nat = Some c
                /\ CombineCsvs.row_to_dst ["a"; "b"]
                     [Some 1%nat; None; Some 5%nat] !! 0%nat = Some c)
  /\ CombineCsvs.row_to_dst ["a"; "b"] [Some 1%nat; None; Some 5%nat] !! 2%nat
     = Some ""%string
  /\ CombineCsvs.row_to_dst ["a"; "b"] [Some 1%nat; None; Some 5%nat] !! 1%nat
     = Some ""%string.
Proof.
  pose proof (row_to_dst_total ["a"; "b"] [Some 1%nat; None; Some 5%nat])
    as (_ & Hin & Hout & Hnone).
  split; [reflexivity|]. split_and!.
  - apply (Hin 0%nat 1%nat); [reflexivity|simpl; lia].
  - apply (Hout 2%nat 5%nat); [reflexivity|simpl; lia].
  - apply (Hnone 1%nat). reflexivity.
Defined.

(** ** The fatal conditions *)

(** C6. A directory without any file of CSV extension ends the run by
    [SystemExit] with the message that no CSV files were found; a directory
    that has such files, all with an empty header, ends it by [SystemExit]
    with the message that all files are empty, a different message.  In both
    cases the output directory and the output file are left as they were:
    the exit precedes [os.makedirs] and [open], and an output file that did
    not exist still does not. *)
Theorem combine_csvs_fatal (input_dir : string) (listing : list DirEntry)
    (disk : CombineCsvs.Disk) :
  ((forall e, e ∈ listing -> is_csv_file e = false) ->
     CombineCsvs.combine_csvs input_dir listing disk
     = (SystemExit (CombineCsvs.no_files_msg input_dir), disk))
  /\ ((exists e, e ∈ listing /\ is_csv_file e = true) ->
      (forall e, e ∈ listing -> is_csv_file e = true ->
         CombineCsvs.read_header e = []) ->
      CombineCsvs.combine_csvs input_dir listing disk
      = (SystemExit CombineCsvs.all_empty_msg, disk))
  /\ CombineCsvs.no_files_msg input_dir <> CombineCsvs.all_empty_msg.
Proof.
  split_and!.
  - intros Hnone. apply list_csvs_nil in Hnone.
    destruct (combine_csvs_cases input_dir listing disk)
      as [[_ H]|[(Hne & _)|(Hne & _)]]; done.
  - intros (e & He & Hcsv) Hempty.
    assert (CombineCsvs.first_header (CombineCsvs.list_csvs listing) = [])
      as Hcanon.
    { apply first_header_nil. intros f [Hf Hin]%elem_of_list_csvs.
      by apply Hempty. }
    destruct (combine_csvs_cases input_dir listing disk)
      as [[Hnil _]|[(_ & _ & H)|(_ & Hne & _)]]; [|done|done].
    assert (e ∈ CombineCsvs.list_csvs listing) as Hin
      by (by apply elem_of_list_csvs).
    rewrite Hnil in Hin. by apply elem_of_nil in Hin.
  - unfold CombineCsvs.no_files_msg, CombineCsvs.all_empty_msg. discriminate.
Qed.

Lemma combine_csvs_fatal_witness :
  CombineCsvs.combine_csvs "in" [Scenario.notes_txt] Scenario.fresh_disk
  = (SystemExit (CombineCsvs.no_files_msg "in"), Scenario.fresh_disk)
  /\ CombineCsvs.combine_csvs "in" [Scenario.empty_csv; Scenario.notes_txt]
       Scenario.fresh_disk
     = (SystemExit CombineCsvs.all_empty_msg, Scenario.fresh_disk).
Proof.
  split.
  - apply (proj1 (combine_csvs_fatal "in" [Scenario.notes_txt]
                    Scenario.fresh_disk)).
    intros e ->%list_elem_of_singleton. reflexivity.
  - apply (proj1 (proj2 (combine_csvs_fatal "in"
                           [Scenario.empty_csv; Scenario.notes_txt]
                           Scenario.fresh_disk))).
    + exists Scenario.empty_csv. split; [left|reflexivity].
    + intros e [->| ->%list_elem_of_singleton]%elem_of_cons Hcsv;
        [reflexivity|discriminate Hcsv].
Defined.

(** ** The column stripper *)

Section Stripper.
Import RemoveUnnamedColumns.


End Stripper.


(** ** What is written *)

Section Written.
Import CombineCsvs Spec.

(** A mapped cell is the source cell under the column of the same name. *)
Lemma row_to_dst_cells (row src_header canon : Row) :
  row_to_dst row (build_index_map src_header canon)
  = (fun name =>
       match idx_by_name src_header !! name with
       | Some i => cell row i
       | None => ""%string
       end) <$> canon.
Proof.
  unfold row_to_dst, build_index_map. rewrite <- list_fmap_compose.
  apply list_fmap_ext. intros j name _. simpl.
  destruct (idx_by_name src_header !! name) as [i|]; [|done].
  unfold cell. destruct (i <? List.length row)%nat eqn:E; [done|].
  apply Nat.ltb_ge in E. by rewrite lookup_ge_None_2.
Qed.


Lemma elem_of_mapped_rows (canon : Row) (csvs : list DirEntry) (out_row : Row) :
  out_row ∈ mapped_rows canon csvs <->
  exists f src_header data row,
    f ∈ csvs /\ entry_records f = src_header :: data /\ row ∈ data
    /\ out_row = row_to_dst row (build_index_map src_header canon).
Proof.
  unfold mapped_rows. rewrite list_elem_of_In, in_flat_map. split.
  - intros (f & Hf & Hr). apply list_elem_of_In in Hf, Hr.
    unfold mapped_file in Hr.
    destruct (entry_records f) as [|src_header data] eqn:E.
    { by apply elem_of_nil in Hr. }
    apply list_elem_of_fmap in Hr as (row & -> & Hrow).
    by exists f, src_header, data, row.
  - intros (f & src_header & data & row & Hf & E & Hrow & ->).
    exists f. rewrite <- !list_elem_of_In. split; [done|].
    unfold mapped_file. rewrite E. apply list_elem_of_fmap. by exists row.
Qed.

End Written.

(** The normalised form of a key cell is used for comparison alone: the
    second row of [plays.csv] is a duplicate of the first by its key (7, 1),
    and the third is written with its cells [7.0] and [ABC] as they are. *)
Example combine_csvs_keeps_cells :
  CombineCsvs.combine_csvs "in" [Scenario.plays_csv] Scenario.fresh_disk
  = (Returned (CombineCsvs.mkTotals 1 3 1 2),
     CombineCsvs.mkDisk true
       (Some [["game_id"; "play_id"; "yards"];
              ["7"; "1.0"; "12"]; ["7.0"; "2"; "ABC"]])).
Proof. vm_compute. reflexivity. Qed.

(** C5. When [combine_csvs] returns, the output holds the canonical header
    followed by rows taken, in order, from the mapped rows of the input
    files, namely those whose key has not occurred before: every row
    written is [row_to_dst] of a data row of some input
    file under the mapping of that file's header, so that its cell under a
    canonical column is the source cell under the column of that name, or
    the empty string when the file has no such column or the row is too
    short.  [_normalize_for_key] is applied to no cell that is written. *)
Theorem combine_csvs_writes_mapped_rows (input_dir : string)
    (listing : list DirEntry) (disk disk' : CombineCsvs.Disk)
    (t : CombineCsvs.Totals) :
  CombineCsvs.combine_csvs input_dir listing disk = (Returned t, disk') ->
  let csvs := CombineCsvs.list_csvs listing in
  let canon := CombineCsvs.first_header csvs in
  exists rows,
    CombineCsvs.out_csv disk' = Some (canon :: rows)
    /\ rows = Spec.keep_first (Spec.dedup_key canon) []
                (Spec.mapped_rows canon csvs)
    /\ rows `sublist_of` Spec.mapped_rows canon csvs
    /\ forall out_row, out_row ∈ rows ->
         exists f src_header data row,
           f ∈ csvs /\ entry_records f = src_header :: data /\ row ∈ data
           /\ out_row
              = CombineCsvs.row_to_dst row
                  (CombineCsvs.build_index_map src_header canon)
           /\ forall j name, canon !! j = Some name ->
                out_row !! j
                = Some (match CombineCsvs.idx_by_name src_header !! name with
                        | Some i => Spec.cell row i
                        | None => ""%string
                        end).
Proof.
  intros Hrun csvs canon.
  apply combine_csvs_Returned in Hrun as (_ & _ & _ & ->).
  fold csvs canon. eexists. split; [done|]. split; [done|].
  split; [apply keep_first_sublist|].
  intros out_row Hout.
  assert (out_row ∈ Spec.mapped_rows canon csvs) as Hin.
  { eapply elem_of_sublist; [done|apply keep_first_sublist]. }
  apply elem_of_mapped_rows in Hin as (f & h & data & row & Hf & E & Hrow & ->).
  exists f, h, data, row. split_and!; try done.
  intros j name Hj. by rewrite row_to_dst_cells, list_lookup_fmap, Hj.
Qed.

Lemma combine_csvs_writes_mapped_rows_witness :
  CombineCsvs.combine_csvs "in" [Scenario.plays_csv] Scenario.fresh_disk
  = (Returned (CombineCsvs.mkTotals 1 3 1 2),
     CombineCsvs.mkDisk true
       (Some [["game_id"; "play_id"; "yards"];
              ["7"; "1.0"; "12"]; ["7.0"; "2"; "ABC"]]))
  /\ exists rows,
       Some [["game_id"; "play_id"; "yards"];
             ["7"; "1.0"; "12"]; ["7.0"; "2"; "ABC"]]
       = Some (["game_id"; "play_id"; "yards"] :: rows)
       /\ rows `sublist_of`
            Spec.mapped_rows ["game_id"; "play_id"; "yards"]
              [Scenario.plays_csv].
Proof.
  split; [vm_compute; reflexivity|].
  destruct (combine_csvs_writes_mapped_rows "in" [Scenario.plays_csv]
              Scenario.fresh_disk
              (CombineCsvs.mkDisk true
                 (Some [["game_id"; "play_id"; "yards"];
                        ["7"; "1.0"; "12"]; ["7.0"; "2"; "ABC"]]))
              (CombineCsvs.mkTotals 1 3 1 2))
    as (rows & Hout & _ & Hsub & _); [vm_compute; reflexivity|].
  exists rows. split; [exact Hout|exact Hsub].
Defined.

(** ** The deduplication mode *)

Section Mode.
Import CombineCsvs Spec.

Lemma use_key_true (canon : Row) :
  use_key canon = true <->
  "game_id"%string ∈ canon /\ "play_id"%string ∈ canon.
Proof.
  unfold use_key, use_key_of, key_idx_of, KEY_COLUMNS. cbn [fmap list_fmap forallb].
  rewrite !andb_true_iff, !bool_decide_eq_true.
  assert (forall name, idx_by_name canon !! name <> None <-> name ∈ canon) as H.
  { intros name. rewrite idx_by_name_None. split; [|tauto].
    intros Hnn. by destruct (decide (name ∈ canon)). }
  rewrite !H. tauto.
Qed.

Lemma dedup_key_hash (canon out_row : Row) :
  use_key canon = false ->
  dedup_key canon out_row
  = ContentHash (SHA256.digest (PyStr.encode_utf8 (PyStr.join NUL out_row))).
Proof. intros Hmode. unfold dedup_key. by rewrite Hmode. Qed.

Lemma dedup_key_semantic (canon out_row : Row) :
  use_key canon = true ->
  List.length out_row = List.length canon ->
  exists g p,
    idx_by_name canon !! "game_id"%string = Some g
    /\ idx_by_name canon !! "play_id"%string = Some p
    /\ dedup_key canon out_row
       = SemanticKey [_normalize_for_key (cell out_row g);
                      _normalize_for_key (cell out_row p)].
Proof.
  intros Hmode Hlen. unfold dedup_key. rewrite Hmode.
  apply use_key_true in Hmode as [Hg Hp].
  apply idx_by_name_is_Some in Hg as [g Hg], Hp as [p Hp].
  exists g, p. split; [done|]. split; [done|]. f_equal.
  unfold k_tuple, key_idx_of, KEY_COLUMNS. cbn [fmap list_fmap].
  rewrite Hg, Hp. cbn [omap list_omap id mapM].
  apply idx_by_name_lt in Hg, Hp. rewrite <- Hlen in Hg, Hp.
  apply lookup_lt_is_Some in Hg as [cg Hcg], Hp as [cp Hcp].
  unfold cell. by rewrite Hcg, Hcp.
Qed.
End Mode.

(** C9. The key columns are [game_id] and [play_id].  The run deduplicates
    by the tuple of the normalised cells under these two columns exactly
    when both names occur in the canonical header, and otherwise by the
    SHA-256 digest of the UTF-8 encoding of the output cells joined by NUL.
    Which of the two it is depends on the canonical header alone: the rows
    written are the mapped rows whose key, one function of the canonical
    header, has not occurred before. *)
Theorem dedup_mode_fixed_by_header :
  CombineCsvs.KEY_COLUMNS = ["game_id"%string; "play_id"%string]
  /\ (forall canon : Row,
        Spec.use_key canon = true <->
        "game_id"%string ∈ canon /\ "play_id"%string ∈ canon)
  /\ (forall canon out_row : Row,
        Spec.use_key canon = false ->
        Spec.dedup_key canon out_row
        = Spec.ContentHash
            (SHA256.digest
               (PyStr.encode_utf8 (PyStr.join CombineCsvs.NUL out_row))))
  /\ (forall canon out_row : Row,
        Spec.use_key canon = true ->
        List.length out_row = List.length canon ->
        exists g p,
          CombineCsvs.idx_by_name canon !! "game_id"%string = Some g
          /\ CombineCsvs.idx_by_name canon !! "play_id"%string = Some p
          /\ Spec.dedup_key canon out_row
             = Spec.SemanticKey
                 [CombineCsvs._normalize_for_key (Spec.cell out_row g);
                  CombineCsvs._normalize_for_key (Spec.cell out_row p)])
  /\ (forall input_dir listing disk disk' t,
        CombineCsvs.combine_csvs input_dir listing disk = (Returned t, disk') ->
        let csvs := CombineCsvs.list_csvs listing in
        let canon := CombineCsvs.first_header csvs in
        CombineCsvs.out_csv disk'
        = Some (canon :: Spec.keep_first (Spec.dedup_key canon) []
                           (Spec.mapped_rows canon csvs))).
Proof.
  split_and!.
  - reflexivity.
  - apply use_key_true.
  - apply dedup_key_hash.
  - apply dedup_key_semantic.
  - intros input_dir listing disk disk' t Hrun csvs canon.
    by apply combine_csvs_Returned in Hrun as (_ & _ & _ & ->).
Qed.

Lemma dedup_mode_fixed_by_header_witness :
  Spec.use_key ["id"; "val"] = false
  /\ Spec.dedup_key ["id"; "val"] ["2"; "y"]
     = Spec.ContentHash
         (SHA256.digest
            (PyStr.encode_utf8 (PyStr.join CombineCsvs.NUL ["2"; "y"])))
  /\ Spec.use_key ["game_id"; "play_id"; "yards"] = true
  /\ (exists g p,
        CombineCsvs.idx_by_name ["game_id"; "play_id"; "yards"]
          !! "game_id"%string = Some g
        /\ CombineCsvs.idx_by_name ["game_id"; "play_id"; "yards"]
             !! "play_id"%string = Some p
        /\ Spec.dedup_key ["game_id"; "play_id"; "yards"] [" 7.00 "; "1"; "12"]
           = Spec.SemanticKey
               [CombineCsvs._normalize_for_key
                  (Spec.cell [" 7.00 "; "1"; "12"] g);
                CombineCsvs._normalize_for_key
                  (Spec.cell [" 7.00 "; "1"; "12"] p)])
  /\ CombineCsvs.out_csv (CombineCsvs.mkDisk true (Some Scenario.merged))
     = Some (["id"; "val"]
             :: Spec.keep_first (Spec.dedup_key ["id"; "val"]) []
                  (Spec.mapped_rows ["id"; "val"]
                     [Scenario.a_csv; Scenario.b_csv])).
Proof.
  destruct dedup_mode_fixed_by_header as (_ & _ & Hhash & Hsem & Hrun).
  split; [reflexivity|]. split; [apply Hhash; reflexivity|].
  split; [reflexivity|]. split; [apply Hsem; reflexivity|].
  apply (Hrun "in"%string [Scenario.a_csv; Scenario.b_csv] Scenario.fresh_disk
           (CombineCsvs.mkDisk true (Some Scenario.merged))
           (CombineCsvs.mkTotals 2 4 1 3)).
  vm_compute. reflexivity.
Defined.

(** ** Merging a merged file again *)

Section Idempotence.
Import CombineCsvs Spec.

Lemma list_csvs_singleton (e : DirEntry) :
  is_csv_file e = true -> list_csvs [e] = [e].
Proof.
  intros Hcsv. unfold list_csvs. simpl.
  rewrite filter_cons_True by done. done.
Qed.

Lemma first_header_singleton (e : DirEntry) (canon : Row) (rows : list Row) :
  canon <> [] -> entry_records e = canon :: rows -> first_header [e] = canon.
Proof.
  intros Hne E. unfold first_header, read_header. rewrite E.
  by destruct canon.
Qed.
End Idempotence.



(** ** Whole numbers are read by [float] without rounding *)

Section FloatExact.
Import PyFloat.

Lemma round_half_even_multiple (a d : Z) :
  0 < d -> round_half_even (a * d) d = a.
Proof.
  intros Hd. unfold round_half_even.
  rewrite Z.div_mul, Z.mod_mul by lia.
  by replace (2 * 0 ?= d) with Lt by (symmetry; apply Z.compare_lt_iff; lia).
Qed.

Lemma floor_log2_ratio_multiple (v d : Z) :
  0 < v -> 0 < d -> floor_log2_ratio (v * d) d = Z.log2 v.
Proof.
  intros Hv Hd. unfold floor_log2_ratio.
  pose proof (Z.log2_mul_below v d Hv Hd) as Hlo.
  pose proof (Z.log2_mul_above v d ltac:(lia) ltac:(lia)) as Hhi.
  pose proof (Z.log2_nonneg v) as Hnn.
  pose proof (Z.log2_spec v Hv) as [Hle Hlt].
  set (e0 := Z.log2 (v * d) - Z.log2 d) in *.
  rewrite (proj2 (Z.leb_le 0 e0)) by lia.
  destruct (decide (e0 = Z.log2 v)) as [->|Hne].
  - rewrite (proj2 (Z.leb_le _ _)); [done|]. nia.
  - assert (e0 = Z.succ (Z.log2 v)) as -> by lia.
    rewrite (proj2 (Z.leb_gt _ _)); [lia|]. nia.
Qed.

(** A whole number below 2^53, written as a fraction with any positive
    denominator, is a binary64 value: it is read without rounding. *)
Lemma round_binary64_whole (v d : Z) :
  0 <= v < 2 ^ 53 -> 0 < d ->
  exists f, round_binary64 (v * d) d = f
            /\ is_integer f = true /\ int f = Some v.
Proof.
  intros [Hv0 Hv] Hd. unfold round_binary64.
  destruct (decide (v = 0)) as [->|Hne].
  { exists (Finite 0 0). done. }
  rewrite (proj2 (Z.eqb_neq (v * d) 0)) by nia.
  rewrite floor_log2_ratio_multiple by lia.
  pose proof (Z.log2_nonneg v) as Hnn.
  assert (Z.log2 v < 53) as Hlog by (apply Z.log2_lt_pow2; lia).
  pose proof (Z.log2_spec v ltac:(lia)) as [Hle Hlt].
  set (L := Z.log2 v) in *.
  rewrite (Z.max_l (L - 52) (-1074)) by lia.
  assert (0 < 2 ^ (52 - L)) as Hpow by (apply Z.pow_pos_nonneg; lia).
  assert (v * 2 ^ (52 - L) < 2 ^ 1024) as Hsmall.
  { apply Z.lt_trans with (2 ^ 53).
    - replace 53 with (Z.succ L + (52 - L)) by lia.
      rewrite Z.pow_add_r by lia. nia.
    - apply Z.pow_lt_mono_r; lia. }
  destruct (decide (L = 52)) as [HL|HL].
  - rewrite HL in *. change (52 - 52) with 0 in *. change (0 <=? 0) with true.
    cbn iota. change (Z.max 0 0) with 0. change (2 ^ 0) with 1 in *.
    rewrite !Z.mul_1_r in *. rewrite round_half_even_multiple by lia.
    rewrite (proj2 (Z.leb_gt _ _)) by lia.
    exists (Finite v 0). split; [done|]. split; [done|].
    simpl. by rewrite Z.mul_1_r.
  - rewrite (proj2 (Z.leb_gt 0 (L - 52))) by lia.
    replace (- (L - 52)) with (52 - L) by lia.
    replace (v * d * 2 ^ (52 - L)) with (v * 2 ^ (52 - L) * d) by lia.
    rewrite round_half_even_multiple by lia.
    rewrite (Z.max_r (L - 52) 0) by lia. change (2 ^ 0) with 1.
    rewrite Z.mul_1_r. rewrite (proj2 (Z.leb_gt _ _)) by lia.
    eexists; split; [done|]. unfold is_integer, int.
    rewrite (proj2 (Z.leb_gt 0 (L - 52))) by lia.
    replace (- (L - 52)) with (52 - L) by lia.
    rewrite Z.mod_mul, Z.div_mul by lia. done.
Qed.
End FloatExact.

(** ** Trimming, and reading the digits *)

Section Strip.
Import PyStr.

Lemma lstrip_spaces_app (ws t : string) :
  forall_chars isspace ws = true -> lstrip (ws ++ t) = lstrip t.
Proof.
  induction ws as [|c ws IH]; simpl; [done|].
  intros [-> Hws]%andb_true_iff. by apply IH.
Qed.

Lemma lstrip_spaces (ws : string) :
  forall_chars isspace ws = true -> lstrip ws = EmptyString.
Proof.
  induction ws as [|c ws IH]; simpl; [done|].
  intros [-> Hws]%andb_true_iff. by apply IH.
Qed.

Lemma rstrip_spaces (ws : string) :
  forall_chars isspace ws = true -> rstrip ws = EmptyString.
Proof.
  induction ws as [|c ws IH]; simpl; [done|].
  intros [-> Hws]%andb_true_iff. by rewrite IH.
Qed.

Lemma rstrip_app_spaces (t ws : string) :
  forall_chars isspace ws = true -> rstrip (t ++ ws) = rstrip t.
Proof.
  intros Hws. induction t as [|c t IH]; simpl.
  - by apply rstrip_spaces.
  - by rewrite IH.
Qed.

Lemma lstrip_app (t u : string) :
  lstrip (t ++ u)
  = match lstrip t with
    | EmptyString => lstrip u
    | String _ _ => (lstrip t ++ u)%string
    end.
Proof.
  induction t as [|c t IH]; simpl; [done|].
  by destruct (isspace c).
Qed.

(** Blanks around a value do not change what [strip] returns. *)
Lemma strip_spaces_around (ws1 ws2 s : string) :
  forall_chars isspace ws1 = true -> forall_chars isspace ws2 = true ->
  strip (ws1 ++ s ++ ws2) = strip s.
Proof.
  intros H1 H2. unfold strip. rewrite lstrip_spaces_app by done.
  rewrite lstrip_app. destruct (lstrip s) as [|c t] eqn:E.
  - by rewrite lstrip_spaces.
  - by rewrite rstrip_app_spaces.
Qed.
End Strip.

Section Whole.
Import PyStr PyFloat Spec.

Lemma append_empty_r (s : string) : (s ++ EmptyString)%string = s.
Proof.
  induction s as [|c s IH]; [done|].
  change (String c s ++ EmptyString)%string with (String c (s ++ EmptyString)).
  by rewrite IH.
Qed.

Lemma scan_digits (ds rest : string) (seen_dot : bool) (acc : Z)
    (frac digits : nat) :
  forall_chars is_ascii_digit ds = true ->
  scan (ds ++ rest) seen_dot acc frac digits
  = scan rest seen_dot (digits_value_from acc ds)
         (if seen_dot then frac + String.length ds else frac)%nat
         (digits + String.length ds)%nat.
Proof.
  revert acc frac digits. induction ds as [|c ds IH]; intros acc frac digits; simpl.
  - intros _. rewrite !Nat.add_0_r. by destruct seen_dot.
  - intros [-> Hds]%andb_true_iff. rewrite IH by done.
    destruct seen_dot; f_equal; lia.
Qed.

Lemma zero_is_digit (zs : string) :
  forall_chars is_zero_char zs = true -> forall_chars is_ascii_digit zs = true.
Proof.
  induction zs as [|c zs IH]; simpl; [done|].
  intros [Hc Hzs]%andb_true_iff. rewrite IH by done.
  unfold is_zero_char in Hc. apply Ascii.eqb_eq in Hc as ->. done.
Qed.

Lemma digits_value_zeros (acc : Z) (zs : string) :
  forall_chars is_zero_char zs = true ->
  digits_value_from acc zs = acc * 10 ^ Z.of_nat (String.length zs).
Proof.
  revert acc. induction zs as [|c zs IH]; intros acc; simpl String.length.
  - intros _. simpl. lia.
  - simpl. intros [Hc Hzs]%andb_true_iff. rewrite IH by done.
    unfold is_zero_char in Hc. apply Ascii.eqb_eq in Hc as ->.
    change (ord "0" - 48) with 0. rewrite Nat2Z.inj_succ, Z.pow_succ_r by lia.
    lia.
Qed.

Lemma digits_value_nonneg (acc : Z) (ds : string) :
  0 <= acc -> forall_chars is_ascii_digit ds = true ->
  0 <= digits_value_from acc ds.
Proof.
  revert acc. induction ds as [|c ds IH]; intros acc Hacc; simpl; [done|].
  intros [Hc Hds]%andb_true_iff. apply IH; [|done].
  unfold is_ascii_digit, between in Hc. lia.
Qed.

Lemma float_digits (ds : string) :
  ds <> EmptyString -> forall_chars is_ascii_digit ds = true ->
  float ds = Some (round_binary64 (digits_value ds * 1) 1).
Proof.
  intros Hne Hds. unfold float.
  rewrite <- (append_empty_r ds) at 1. rewrite scan_digits by done.
  simpl scan. destruct ds as [|c ds]; [done|]. simpl String.length.
  cbn [Nat.eqb]. change (10 ^ Z.of_nat 0) with 1.
  by rewrite Z.mul_1_r.
Qed.

Lemma float_digits_point_zeros (ds zs : string) :
  ds <> EmptyString -> forall_chars is_ascii_digit ds = true ->
  forall_chars is_zero_char zs = true ->
  float (ds ++ String "."%char zs)
  = Some (round_binary64
            (digits_value ds * 10 ^ Z.of_nat (String.length zs))
            (10 ^ Z.of_nat (String.length zs))).
Proof.
  intros Hne Hds Hzs. unfold float. rewrite scan_digits by done.
  cbn [scan]. change (is_ascii_digit ".") with false.
  change (Ascii.eqb "." "." && negb false) with true. cbn iota.
  rewrite <- (append_empty_r zs) at 1.
  rewrite scan_digits by (by apply zero_is_digit).
  simpl scan. rewrite digits_value_zeros by done.
  destruct ds as [|c ds]; [done|]. simpl String.length.
  cbn [Nat.add Nat.eqb]. done.
Qed.
End Whole.

(** ** The normalisation of key cells *)

Section Normalisation.
Import CombineCsvs Spec.

Lemma isdigit_char_not_point (c : ascii) :
  PyStr.isdigit_char c = true -> Ascii.eqb c "."%char = false.
Proof.
  intros Hd. destruct (Ascii.eqb_spec c "."%char) as [->|]; [|done].
  vm_compute in Hd. discriminate.
Qed.

Lemma digits_no_point (s : string) :
  PyStr.forall_chars PyStr.isdigit_char s = true ->
  count_points s = 0%nat /\ PyStr.forall_chars digit_or_point s = true.
Proof.
  induction s as [|c s IH]; simpl; [done|].
  intros [Hc Hs]%andb_true_iff. destruct (IH Hs) as [-> ->].
  unfold digit_or_point.
  by rewrite (isdigit_char_not_point c Hc), Hc.
Qed.

Lemma no_point_digits (s : string) :
  count_points s = 0%nat -> PyStr.forall_chars digit_or_point s = true ->
  PyStr.forall_chars PyStr.isdigit_char s = true.
Proof.
  induction s as [|c s IH]; simpl; [done|].
  unfold digit_or_point at 1.
  destruct (Ascii.eqb c "."%char); [done|]. simpl.
  rewrite orb_false_r. intros Hn [-> Hs]%andb_true_iff. by apply IH.
Qed.

(** The test of the code implies the pattern of the description. *)
Lemma isdigit_numeric_pattern (s : string) :
  PyStr.isdigit (PyStr.remove_first "."%char s) = true ->
  numeric_pattern s = true.
Proof.
  intros Hd.
  assert (PyStr.forall_chars PyStr.isdigit_char
            (PyStr.remove_first "."%char s) = true) as Hall.
  { unfold PyStr.isdigit in Hd. by destruct (PyStr.remove_first "."%char s). }
  clear Hd. unfold numeric_pattern.
  induction s as [|c s IH]; [done|]. simpl in *.
  unfold digit_or_point at 1.
  destruct (Ascii.eqb c "."%char) eqn:E.
  - apply digits_no_point in Hall as [-> ->]. by rewrite orb_true_r.
  - simpl in Hall. apply andb_true_iff in Hall as [Hc Hs].
    rewrite Hc. simpl. by apply IH.
Qed.

(** The pattern leaves only digits once the first point is removed. *)
Lemma numeric_pattern_digits (s : string) :
  numeric_pattern s = true ->
  PyStr.forall_chars PyStr.isdigit_char (PyStr.remove_first "."%char s) = true.
Proof.
  unfold numeric_pattern.
  induction s as [|c s IH]; [done|]. simpl.
  unfold digit_or_point at 1.
  destruct (Ascii.eqb c "."%char) eqn:E.
  - rewrite orb_true_r. simpl. intros [Hn Hs]%andb_true_iff.
    apply no_point_digits; [|done].
    apply Nat.leb_le in Hn. lia.
  - rewrite orb_false_r. simpl.
    intros [Hn [Hc Hs]%andb_true_iff]%andb_true_iff.
    rewrite Hc. simpl. apply IH. by rewrite Hn, Hs.
Qed.

Lemma remove_first_empty (s : string) :
  PyStr.remove_first "."%char s = EmptyString ->
  s = EmptyString \/ s = String "."%char EmptyString.
Proof.
  destruct s as [|c s]; [by left|]. simpl.
  destruct (Ascii.eqb_spec c "."%char) as [->|]; [|done].
  intros ->. by right.
Qed.

(** A string of the pattern that fails the test of the code has no digit,
    and [float] rejects it. *)
Lemma numeric_pattern_no_digit (s : string) :
  numeric_pattern s = true ->
  PyStr.isdigit (PyStr.remove_first "."%char s) = false ->
  PyFloat.float s = None.
Proof.
  intros Hp Hd. apply numeric_pattern_digits in Hp.
  unfold PyStr.isdigit in Hd.
  destruct (PyStr.remove_first "."%char s) eqn:E; [|congruence].
  by apply remove_first_empty in E as [-> | ->].
Qed.

Lemma is_integer_int (f : PyFloat.t) :
  PyFloat.is_integer f = true -> is_Some (PyFloat.int f).
Proof. by destruct f. Qed.

Lemma normalize_for_key_refines (val : string) :
  _normalize_for_key val = normalize val.
Proof.
  unfold _normalize_for_key, normalize.
  set (s := PyStr.strip val).
  destruct (PyStr.isdigit (PyStr.remove_first "."%char s)) eqn:Hd.
  - rewrite (isdigit_numeric_pattern s Hd).
    destruct (PyFloat.float s) as [f|]; [|done].
    destruct (PyFloat.is_integer f) eqn:Hi; [|done].
    by destruct (is_integer_int f Hi) as [n ->].
  - destruct (numeric_pattern s) eqn:Hp; [|done].
    by rewrite (numeric_pattern_no_digit s Hp Hd).
Qed.
Lemma forall_chars_app (p : ascii -> bool) (s1 s2 : string) :
  PyStr.forall_chars p (s1 ++ s2)
  = PyStr.forall_chars p s1 && PyStr.forall_chars p s2.
Proof.
  induction s1 as [|c s1 IH]; [done|].
  change (String c s1 ++ s2)%string with (String c (s1 ++ s2)).
  simpl. by rewrite IH, andb_assoc.
Qed.

Lemma ascii_digit_isdigit_char (c : ascii) :
  PyStr.is_ascii_digit c = true -> PyStr.isdigit_char c = true.
Proof.
  unfold PyStr.isdigit_char, PyStr.is_ascii_digit. by intros ->.
Qed.

Lemma ascii_digits_isdigit (ds : string) :
  PyStr.forall_chars PyStr.is_ascii_digit ds = true ->
  PyStr.forall_chars PyStr.isdigit_char ds = true.
Proof.
  induction ds as [|c ds IH]; simpl; [done|].
  intros [Hc Hds]%andb_true_iff. rewrite IH by done.
  by rewrite (ascii_digit_isdigit_char c Hc).
Qed.

Lemma remove_first_digits (ds rest : string) :
  PyStr.forall_chars PyStr.is_ascii_digit ds = true ->
  PyStr.remove_first "."%char (ds ++ rest)
  = (ds ++ PyStr.remove_first "."%char rest)%string.
Proof.
  induction ds as [|c ds IH]; [done|].
  change (String c ds ++ rest)%string with (String c (ds ++ rest)).
  change (String c ds ++ PyStr.remove_first "." rest)%string
    with (String c (ds ++ PyStr.remove_first "." rest)).
  simpl. intros [Hc Hds]%andb_true_iff. rewrite IH by done.
  apply ascii_digit_isdigit_char in Hc.
  by rewrite (isdigit_char_not_point c Hc).
Qed.

(** The test of the code accepts digits, and digits, a point and zeros. *)
Lemma isdigit_whole (ds zs s : string) :
  ds <> EmptyString ->
  PyStr.forall_chars PyStr.is_ascii_digit ds = true ->
  PyStr.forall_chars is_zero_char zs = true ->
  s = ds \/ s = (ds ++ String "."%char zs)%string ->
  PyStr.isdigit (PyStr.remove_first "."%char s) = true.
Proof.
  intros Hne Hds Hzs Hs.
  assert (exists t, PyStr.remove_first "."%char s = (ds ++ t)%string
                    /\ PyStr.forall_chars PyStr.isdigit_char t = true)
    as (t & -> & Ht).
  { destruct Hs as [-> | ->].
    - exists EmptyString. split; [|done].
      rewrite <- (append_empty_r ds) at 1. by rewrite remove_first_digits.
    - exists zs. split.
      + by rewrite remove_first_digits.
      + by apply ascii_digits_isdigit, zero_is_digit. }
  destruct ds as [|c ds]; [done|].
  change (String c ds ++ t)%string with (String c (ds ++ t)).
  unfold PyStr.isdigit.
  change (String c (ds ++ t)) with (String c ds ++ t)%string.
  rewrite forall_chars_app, Ht, andb_true_r. by apply ascii_digits_isdigit.
Qed.

(** A whole number below 2^53, written with digits alone or with a point
    and zeros after it, is normalised to its decimal representation. *)
Lemma normalize_whole_number (val ds zs : string) :
  ds <> EmptyString ->
  PyStr.forall_chars PyStr.is_ascii_digit ds = true ->
  PyStr.forall_chars is_zero_char zs = true ->
  PyStr.strip val = ds \/ PyStr.strip val = (ds ++ String "."%char zs)%string ->
  digits_value ds < 2 ^ 53 ->
  _normalize_for_key val = PyStr.str_of_int (digits_value ds).
Proof.
  intros Hne Hds Hzs Hs Hv. unfold _normalize_for_key.
  rewrite (isdigit_whole ds zs _ Hne Hds Hzs Hs).
  assert (0 <= digits_value ds) as Hv0 by (by apply digits_value_nonneg).
  assert (exists d, 0 < d /\ PyFloat.float (PyStr.strip val)
                             = Some (PyFloat.round_binary64
                                       (digits_value ds * d) d))
    as (d & Hd & ->).
  { destruct Hs as [-> | ->].
    - exists 1. split; [lia|]. by apply float_digits.
    - exists (10 ^ Z.of_nat (String.length zs)). split.
      + apply Z.pow_pos_nonneg; lia.
      + by apply float_digits_point_zeros. }
  destruct (round_binary64_whole (digits_value ds) d ltac:(lia) Hd)
    as (f & -> & -> & ->).
  done.
Qed.

(** Blanks around a cell do not change its key. *)
Lemma normalize_spaces_around (ws1 ws2 s : string) :
  PyStr.forall_chars PyStr.isspace ws1 = true ->
  PyStr.forall_chars PyStr.isspace ws2 = true ->
  _normalize_for_key (ws1 ++ s ++ ws2) = _normalize_for_key s.
Proof.
  intros H1 H2. unfold _normalize_for_key.
  by rewrite strip_spaces_around.
Qed.

Lemma normalize_otherwise (val : string) :
  numeric_pattern (PyStr.strip val) = false ->
  _normalize_for_key val = PyStr.lower (PyStr.strip val).
Proof.
  intros Hp. rewrite normalize_for_key_refines. unfold normalize.
  by rewrite Hp.
Qed.
End Normalisation.

(** C4. The cells [7], [7.0] and [ 7.00 ] are normalised to the key [7], and
    [ABC] and [abc] to one key.  In general blanks around a cell do not
    change its key; a trimmed value made of digits, or of digits, a point
    and zeros, that writes a whole number below 2^53 gives the decimal
    representation of that number; a trimmed value that is not made of
    digits and at most one point is put in lower case; and for every cell
    [_normalize_for_key] does what the four steps describe: trim, then on
    digits and at most one point read a float and, when that float has no
    fractional part, give its integer representation, and lower case in
    every other case. *)
Theorem normalize_for_key_correct :
  CombineCsvs._normalize_for_key "7" = "7"%string
  /\ CombineCsvs._normalize_for_key "7.0" = "7"%string
  /\ CombineCsvs._normalize_for_key " 7.00 " = "7"%string
  /\ CombineCsvs._normalize_for_key "ABC" = CombineCsvs._normalize_for_key "abc"
  /\ (forall ws1 ws2 s : string,
        PyStr.forall_chars PyStr.isspace ws1 = true ->
        PyStr.forall_chars PyStr.isspace ws2 = true ->
        CombineCsvs._normalize_for_key (ws1 ++ s ++ ws2)
        = CombineCsvs._normalize_for_key s)
  /\ (forall val ds zs : string,
        ds <> EmptyString ->
        PyStr.forall_chars PyStr.is_ascii_digit ds = true ->
        PyStr.forall_chars Spec.is_zero_char zs = true ->
        PyStr.strip val = ds
        \/ PyStr.strip val = (ds ++ String "."%char zs)%string ->
        Spec.digits_value ds < 2 ^ 53 ->
        CombineCsvs._normalize_for_key val
        = PyStr.str_of_int (Spec.digits_value ds))
  /\ (forall val : string,
        Spec.numeric_pattern (PyStr.strip val) = false ->
        CombineCsvs._normalize_for_key val = PyStr.lower (PyStr.strip val))
  /\ forall val : string, CombineCsvs._normalize_for_key val = Spec.normalize val.
Proof.
  split; [vm_compute; reflexivity|].
  split; [vm_compute; reflexivity|].
  split; [vm_compute; reflexivity|].
  split; [vm_compute; reflexivity|].
  split; [apply normalize_spaces_around|].
  split; [apply normalize_whole_number|].
  split; [apply normalize_otherwise|].
  apply normalize_for_key_refines.
Qed.

Lemma normalize_for_key_correct_witness :
  CombineCsvs._normalize_for_key (" " ++ "Play 7" ++ "  ")
  = CombineCsvs._normalize_for_key "Play 7"
  /\ CombineCsvs._normalize_for_key " 0012.000 "
     = PyStr.str_of_int (Spec.digits_value "0012")
  /\ CombineCsvs._normalize_for_key " Play 7"
     = PyStr.lower (PyStr.strip " Play 7").
Proof.
  destruct normalize_for_key_correct
    as (_ & _ & _ & _ & Hblank & Hwhole & Hother & _).
  split; [apply Hblank; reflexivity|].
  split; [|apply Hother; reflexivity].
  apply (Hwhole " 0012.000 "%string "0012"%string "000"%string).
  - discriminate.
  - reflexivity.
  - reflexivity.
  - right. reflexivity.
  - reflexivity.
Defined.

(** * Further properties of the two scripts *)

(** ** The order of the files *)

Section NameOrder.
Import CombineCsvs Ref.

Lemma ascii_compare_lt_trans (a b c : ascii) :
  Ascii.compare a b = Lt -> Ascii.compare b c = Lt -> Ascii.compare a c = Lt.
Proof.
  unfold Ascii.compare. rewrite !N.compare_lt_iff. lia.
Qed.

Lemma string_compare_lt_trans (s1 s2 s3 : string) :
  String.compare s1 s2 = Lt -> String.compare s2 s3 = Lt ->
  String.compare s1 s3 = Lt.
Proof.
  revert s2 s3. induction s1 as [|c1 s1 IH]; intros [|c2 s2] [|c3 s3];
    simpl; try done.
  destruct (Ascii.compare c1 c2) eqn:E12; try done;
    destruct (Ascii.compare c2 c3) eqn:E23; try done.
  - apply Ascii.compare_eq_iff in E12 as ->, E23 as ->.
    replace (Ascii.compare c3 c3) with Eq
      by (unfold Ascii.compare; by rewrite N.compare_refl).
    apply IH.
  - apply Ascii.compare_eq_iff in E12 as ->. by rewrite E23.
  - apply Ascii.compare_eq_iff in E23 as <-. by rewrite E12.
  - by rewrite (ascii_compare_lt_trans c1 c2 c3).
Qed.

Lemma le_trans (s1 s2 s3 : string) :
  PyStr.le s1 s2 = true -> PyStr.le s2 s3 = true -> PyStr.le s1 s3 = true.
Proof.
  unfold PyStr.le, String.leb.
  destruct (String.compare s1 s2) eqn:E12; try done;
    destruct (String.compare s2 s3) eqn:E23; try done; intros _ _.
  - apply String.compare_eq_iff in E12 as ->. by rewrite E23.
  - apply String.compare_eq_iff in E12 as ->. by rewrite E23.
  - apply String.compare_eq_iff in E23 as <-. by rewrite E12.
  - by rewrite (string_compare_lt_trans s1 s2 s3).
Qed.

#[local] Instance name_le_trans : Transitive name_le.
Proof. intros e1 e2 e3. apply le_trans. Qed.

Lemma insert_by_name_perm (e : DirEntry) (l : list DirEntry) :
  insert_by_name e l ≡ₚ e :: l.
Proof.
  induction l as [|x l IH]; simpl; [done|].
  destruct (PyStr.le _ _); [done|]. by rewrite IH, Permutation_swap.
Qed.

Lemma sorted_by_name_perm (l : list DirEntry) : sorted_by_name l ≡ₚ l.
Proof.
  induction l as [|x l IH]; simpl; [done|].
  by rewrite insert_by_name_perm, IH.
Qed.

Lemma insert_by_name_sorted (e : DirEntry) (l : list DirEntry) :
  Sorted name_le l -> Sorted name_le (insert_by_name e l).
Proof.
  induction l as [|x l IH]; simpl; intros Hs.
  - by repeat constructor.
  - destruct (PyStr.le (entry_name e) (entry_name x)) eqn:E.
    + constructor; [done|]. by constructor.
    + apply Sorted_inv in Hs as [Hs Hhd]. constructor; [by apply IH|].
      assert (name_le x e) as Hxe.
      { destruct (String.leb_total (entry_name e) (entry_name x)) as [H|H];
          [unfold PyStr.le in E; congruence|done]. }
      destruct l as [|y l]; simpl.
      * by constructor.
      * destruct (PyStr.le (entry_name e) (entry_name y)); constructor;
          [done|]. by apply HdRel_inv in Hhd.
Qed.

Lemma sorted_by_name_sorted (l : list DirEntry) :
  Sorted name_le (sorted_by_name l).
Proof.
  induction l as [|x l IH]; simpl; [constructor|].
  by apply insert_by_name_sorted.
Qed.

Lemma same_name_same_entry (l : list DirEntry) (x y : DirEntry) :
  NoDup (entry_name <$> l) -> x ∈ l -> y ∈ l ->
  entry_name x = entry_name y -> x = y.
Proof.
  intros Hnd Hx Hy Hname.
  apply list_elem_of_lookup in Hx as [i Hi], Hy as [j Hj].
  assert (i = j) as ->.
  { eapply NoDup_lookup; [done| |].
    - by rewrite list_lookup_fmap, Hi.
    - by rewrite list_lookup_fmap, Hj, Hname. }
  congruence.
Qed.

(** The sorted listing does not depend on the order in which the directory
    gives its entries. *)
Lemma sorted_by_name_perm_eq (l1 l2 : list DirEntry) :
  l1 ≡ₚ l2 -> NoDup (entry_name <$> l1) ->
  sorted_by_name l1 = sorted_by_name l2.
Proof.
  intros Hperm Hnd.
  apply (Sorted_unique_strong name_le); try apply sorted_by_name_sorted.
  - intros x1 x2 Hx1 Hx2 H12 H21.
    apply (proj1 (elem_of_sorted_by_name _ _)) in Hx1.
    apply (proj1 (elem_of_sorted_by_name _ _)) in Hx2.
    rewrite <- Hperm in Hx2.
    apply (same_name_same_entry l1); try done.
    by apply String.leb_antisym.
  - by rewrite !sorted_by_name_perm.
Qed.

Lemma StronglySorted_filter_keep {A : Type} (R : relation A) (P : A -> Prop)
    `{forall x, Decision (P x)} (l : list A) :
  StronglySorted R l -> StronglySorted R (filter P l).
Proof.
  induction 1 as [|x l Hs IH Hall]; [constructor|].
  rewrite filter_cons. destruct (decide (P x)); [|done].
  constructor; [done|].
  apply Forall_forall. intros y [_ Hy]%list_elem_of_filter.
  by apply (proj1 (Forall_forall _ _) Hall).
Qed.

Lemma list_csvs_sorted (listing : list DirEntry) :
  StronglySorted name_le (list_csvs listing).
Proof.
  unfold list_csvs. apply StronglySorted_filter_keep.
  apply Sorted_StronglySorted; [apply _|apply sorted_by_name_sorted].
Qed.

Lemma list_csvs_perm (listing : list DirEntry) :
  list_csvs listing ≡ₚ filter (fun e => is_csv_file e = true) listing.
Proof. unfold list_csvs. by rewrite sorted_by_name_perm. Qed.
End NameOrder.

(** X1. [list_csvs] returns the entries of the directory that are regular
    files with a name ending in [.csv] in any letter case, each as often as
    the directory has it, in ascending order of the names by code points;
    [find_csv_files] of the column stripper returns the same list. *)
Theorem list_csvs_sorted_csv_files (listing : list DirEntry) :
  StronglySorted Ref.name_le (CombineCsvs.list_csvs listing)
  /\ CombineCsvs.list_csvs listing
     ≡ₚ filter (fun e => is_csv_file e = true) listing
  /\ StripperMain.find_csv_files listing = CombineCsvs.list_csvs listing.
Proof.
  split; [apply list_csvs_sorted|]. split; [apply list_csvs_perm|done].
Qed.

(** X2. The result of [combine_csvs] does not depend on the order in which
    [os.listdir] gives the entries of the directory, their names being
    distinct. *)
Theorem combine_csvs_listing_order (input_dir : string)
    (listing1 listing2 : list DirEntry) (disk : CombineCsvs.Disk) :
  listing1 ≡ₚ listing2 ->
  NoDup (entry_name <$> listing1) ->
  CombineCsvs.combine_csvs input_dir listing1 disk
  = CombineCsvs.combine_csvs input_dir listing2 disk.
Proof.
  intros Hperm Hnd. unfold CombineCsvs.combine_csvs, CombineCsvs.list_csvs.
  by rewrite (sorted_by_name_perm_eq listing1 listing2 Hperm Hnd).
Qed.

Lemma combine_csvs_listing_order_witness :
  [Scenario.b_csv; Scenario.a_csv] ≡ₚ [Scenario.a_csv; Scenario.b_csv]
  /\ CombineCsvs.combine_csvs "in" [Scenario.b_csv; Scenario.a_csv]
       Scenario.fresh_disk
     = CombineCsvs.combine_csvs "in" [Scenario.a_csv; Scenario.b_csv]
         Scenario.fresh_disk.
Proof.
  assert ([Scenario.b_csv; Scenario.a_csv]
          ≡ₚ [Scenario.a_csv; Scenario.b_csv]) as Hperm by apply Permutation_swap.
  split; [exact Hperm|].
  apply (combine_csvs_listing_order _ _ _ _ Hperm).
  apply (bool_decide_unpack (NoDup _)). vm_compute. exact I.
Defined.

(** ** The header and the rows of the output *)

Section Output.
Import CombineCsvs Spec.

Lemma first_header_split (files : list DirEntry) :
  first_header files <> [] ->
  exists pre f post,
    files = pre ++ f :: post
    /\ (forall g, g ∈ pre -> read_header g = [])
    /\ read_header f = first_header files.
Proof.
  induction files as [|f files IH]; simpl; [done|].
  destruct (read_header f) as [|c hdr] eqn:E.
  - intros Hne. destruct (IH Hne) as (pre & g & post & -> & Hpre & Hg).
    exists (f :: pre), g, post. split; [done|]. split; [|done].
    intros h [->|Hh]%elem_of_cons; [done|by apply Hpre].
  - intros _. exists [], f, files. split; [done|]. split; [|done].
    intros g Hg. by apply elem_of_nil in Hg.
Qed.

Lemma length_mapped_row (canon : Row) (csvs : list DirEntry) (r : Row) :
  r ∈ mapped_rows canon csvs -> List.length r = List.length canon.
Proof.
  intros (f & h & data & row & _ & _ & _ & ->)%elem_of_mapped_rows.
  by rewrite length_row_to_dst, length_build_index_map.
Qed.

Lemma keep_first_complete {K : Type} `{EqDecision K} (key : Row -> K)
    (seen : list K) (rows : list Row) (r : Row) :
  r ∈ rows -> key r ∉ seen ->
  exists r', r' ∈ keep_first key seen rows /\ key r' = key r.
Proof.
  revert seen. induction rows as [|x rows IH]; intros seen Hr Hnew; simpl.
  - by apply elem_of_nil in Hr.
  - destruct (decide (key x ∈ seen)) as [Hin|Hnin].
    + apply elem_of_cons in Hr as [->|Hr]; [done|]. by apply IH.
    + destruct (decide (key r = key x)) as [Heq|Hne].
      * exists x. split; [left|done].
      * apply elem_of_cons in Hr as [->|Hr]; [done|].
        destruct (IH (key x :: seen) Hr) as (r' & Hr' & Hk).
        { rewrite not_elem_of_cons. done. }
        exists r'. split; [by right|done].
Qed.

(** A row is kept where its key occurs for the first time. *)
Lemma keep_first_at_first {K : Type} `{EqDecision K} (key : Row -> K)
    (seen : list K) (l1 l2 : list Row) (r : Row) :
  key r ∉ seen -> key r ∉ key <$> l1 ->
  r ∈ keep_first key seen (l1 ++ r :: l2).
Proof.
  intros Hseen Hl1. rewrite keep_first_app. apply elem_of_app. right.
  simpl. rewrite decide_False; [left|].
  rewrite elem_of_app. tauto.
Qed.

Lemma keep_first_distinct_keys {K : Type} `{EqDecision K} (key : Row -> K)
    (rows : list Row) :
  key <$> keep_first key [] rows ≡ₚ remove_dups (key <$> rows).
Proof.
  apply NoDup_Permutation.
  - apply keep_first_keys.
  - apply NoDup_remove_dups.
  - intros k. rewrite elem_of_remove_dups, !list_elem_of_fmap. split.
    + intros (r & -> & Hr). exists r. split; [done|].
      eapply elem_of_sublist; [done|apply keep_first_sublist].
    + intros (r & -> & Hr).
      destruct (keep_first_complete key [] rows r Hr) as (r' & Hr' & Hk).
      { apply not_elem_of_nil. }
      by exists r'.
Qed.

Lemma NoDup_fmap_elem_inj {A B : Type} (f : A -> B) (l : list A) (x y : A) :
  NoDup (f <$> l) -> x ∈ l -> y ∈ l -> f x = f y -> x = y.
Proof.
  induction l as [|a l IH]; simpl; intros Hnd Hx Hy Hf.
  - by apply elem_of_nil in Hx.
  - apply NoDup_cons in Hnd as [Ha Hnd].
    apply elem_of_cons in Hx as [->|Hx]; apply elem_of_cons in Hy as [->|Hy].
    + done.
    + exfalso. apply Ha. rewrite Hf. by apply list_elem_of_fmap_2.
    + exfalso. apply Ha. rewrite <- Hf. by apply list_elem_of_fmap_2.
    + by apply IH.
Qed.
End Output.

(** X3. When [combine_csvs] returns, the header it writes is the header of
    the first CSV file, in ascending order of names, that has a non-empty
    first record; the CSV files before it have none or an empty one. *)
Theorem combine_csvs_canonical_header (input_dir : string)
    (listing : list DirEntry) (disk disk' : CombineCsvs.Disk)
    (t : CombineCsvs.Totals) :
  CombineCsvs.combine_csvs input_dir listing disk = (Returned t, disk') ->
  exists pre f post rows,
    CombineCsvs.list_csvs listing = pre ++ f :: post
    /\ (forall g, g ∈ pre -> CombineCsvs.read_header g = [])
    /\ CombineCsvs.read_header f <> []
    /\ CombineCsvs.out_csv disk' = Some (CombineCsvs.read_header f :: rows).
Proof.
  intros Hrun. apply combine_csvs_Returned in Hrun as (_ & Hcanon & _ & ->).
  destruct (first_header_split _ Hcanon) as (pre & f & post & Hsplit & Hpre & Hf).
  exists pre, f, post. eexists. rewrite Hf. done.
Qed.

Lemma combine_csvs_canonical_header_witness :
  exists pre f post rows,
    CombineCsvs.list_csvs [Scenario.b_csv; Scenario.empty_csv; Scenario.a_csv]
    = pre ++ f :: post
    /\ (forall g, g ∈ pre -> CombineCsvs.read_header g = [])
    /\ CombineCsvs.read_header f <> []
    /\ CombineCsvs.out_csv (CombineCsvs.mkDisk true (Some Scenario.merged))
       = Some (CombineCsvs.read_header f :: rows).
Proof.
  apply (combine_csvs_canonical_header "in"
           [Scenario.b_csv; Scenario.empty_csv; Scenario.a_csv]
           Scenario.fresh_disk _ (CombineCsvs.mkTotals 3 4 1 3)).
  vm_compute. reflexivity.
Defined.

(** X4. When [combine_csvs] returns, the output is rectangular: every
    record after the header has as many cells as the header, whatever the
    lengths of the rows read. *)
Theorem combine_csvs_rectangular (input_dir : string)
    (listing : list DirEntry) (disk disk' : CombineCsvs.Disk)
    (t : CombineCsvs.Totals) :
  CombineCsvs.combine_csvs input_dir listing disk = (Returned t, disk') ->
  exists header rows,
    CombineCsvs.out_csv disk' = Some (header :: rows)
    /\ header <> []
    /\ forall r, r ∈ rows -> List.length r = List.length header.
Proof.
  intros Hrun. apply combine_csvs_Returned in Hrun as (_ & Hcanon & _ & ->).
  eexists _, _. split; [done|]. split; [done|].
  intros r Hr. eapply length_mapped_row, elem_of_sublist; [done|].
  apply keep_first_sublist.
Qed.

Lemma combine_csvs_rectangular_witness :
  exists header rows,
    CombineCsvs.out_csv (CombineCsvs.mkDisk true (Some Scenario.merged))
    = Some (header :: rows)
    /\ header <> []
    /\ forall r, r ∈ rows -> List.length r = List.length header.
Proof.
  apply (combine_csvs_rectangular "in" [Scenario.b_csv; Scenario.a_csv]
           Scenario.fresh_disk _ (CombineCsvs.mkTotals 2 4 1 3)).
  vm_compute. reflexivity.
Defined.

(** X5. When [combine_csvs] returns, no two records written after the
    header have the same deduplication key, and so no record is written
    twice. *)
Theorem combine_csvs_distinct_rows (input_dir : string)
    (listing : list DirEntry) (disk disk' : CombineCsvs.Disk)
    (t : CombineCsvs.Totals) :
  CombineCsvs.combine_csvs input_dir listing disk = (Returned t, disk') ->
  exists header rows,
    CombineCsvs.out_csv disk' = Some (header :: rows)
    /\ NoDup (Spec.dedup_key header <$> rows)
    /\ NoDup rows.
Proof.
  intros Hrun. apply combine_csvs_Returned in Hrun as (_ & _ & _ & ->).
  eexists _, _. split; [done|].
  assert (NoDup (Spec.dedup_key
                   (CombineCsvs.first_header (CombineCsvs.list_csvs listing))
                 <$> Spec.keep_first
                       (Spec.dedup_key
                          (CombineCsvs.first_header (CombineCsvs.list_csvs listing)))
                       []
                       (Spec.mapped_rows
                          (CombineCsvs.first_header (CombineCsvs.list_csvs listing))
                          (CombineCsvs.list_csvs listing)))) as Hnd
    by apply keep_first_keys.
  split; [done|]. by apply NoDup_fmap_1 in Hnd.
Qed.

Lemma combine_csvs_distinct_rows_witness :
  exists header rows,
    CombineCsvs.out_csv (CombineCsvs.mkDisk true (Some Scenario.merged))
    = Some (header :: rows)
    /\ NoDup (Spec.dedup_key header <$> rows)
    /\ NoDup rows.
Proof.
  apply (combine_csvs_distinct_rows "in" [Scenario.b_csv; Scenario.a_csv]
           Scenario.fresh_disk _ (CombineCsvs.mkTotals 2 4 1 3)).
  vm_compute. reflexivity.
Defined.

(** X6. When [combine_csvs] returns, the first occurrence of a key wins:
    a mapped row whose key no earlier mapped row has is written, it is the
    only written row with that key, and for every mapped row some written
    row has its key. *)
Theorem combine_csvs_first_occurrence (input_dir : string)
    (listing : list DirEntry) (disk disk' : CombineCsvs.Disk)
    (t : CombineCsvs.Totals) :
  CombineCsvs.combine_csvs input_dir listing disk = (Returned t, disk') ->
  exists header rows,
    CombineCsvs.out_csv disk' = Some (header :: rows)
    /\ (forall earlier r later,
          Spec.mapped_rows header (CombineCsvs.list_csvs listing)
          = earlier ++ r :: later ->
          Spec.dedup_key header r ∉ Spec.dedup_key header <$> earlier ->
          r ∈ rows
          /\ forall r', r' ∈ rows ->
                        Spec.dedup_key header r' = Spec.dedup_key header r ->
                        r' = r)
    /\ (forall r,
          r ∈ Spec.mapped_rows header (CombineCsvs.list_csvs listing) ->
          exists r', r' ∈ rows
                     /\ Spec.dedup_key header r' = Spec.dedup_key header r).
Proof.
  intros Hrun. apply combine_csvs_Returned in Hrun as (_ & _ & _ & ->).
  eexists _, _. split; [done|]. split.
  - intros earlier r later -> Hnew.
    assert (r ∈ Spec.keep_first
                  (Spec.dedup_key
                     (CombineCsvs.first_header (CombineCsvs.list_csvs listing)))
                  [] (earlier ++ r :: later)) as Hr
      by (apply keep_first_at_first; [apply not_elem_of_nil|done]).
    split; [done|]. intros r' Hr' Hkey.
    eapply NoDup_fmap_elem_inj; [|exact Hr'|exact Hr|exact Hkey].
    apply keep_first_keys.
  - intros r Hr. apply keep_first_complete; [done|apply not_elem_of_nil].
Qed.

Lemma combine_csvs_first_occurrence_witness :
  exists header rows,
    CombineCsvs.out_csv (CombineCsvs.mkDisk true (Some Scenario.merged))
    = Some (header :: rows)
    /\ (forall earlier r later,
          Spec.mapped_rows header
            (CombineCsvs.list_csvs [Scenario.b_csv; Scenario.a_csv])
          = earlier ++ r :: later ->
          Spec.dedup_key header r ∉ Spec.dedup_key header <$> earlier ->
          r ∈ rows
          /\ forall r', r' ∈ rows ->
                        Spec.dedup_key header r' = Spec.dedup_key header r ->
                        r' = r)
    /\ (forall r,
          r ∈ Spec.mapped_rows header
                (CombineCsvs.list_csvs [Scenario.b_csv; Scenario.a_csv]) ->
          exists r', r' ∈ rows
                     /\ Spec.dedup_key header r' = Spec.dedup_key header r).
Proof.
  apply (combine_csvs_first_occurrence "in" [Scenario.b_csv; Scenario.a_csv]
           Scenario.fresh_disk _ (CombineCsvs.mkTotals 2 4 1 3)).
  vm_compute. reflexivity.
Defined.

(** X7. When [combine_csvs] returns, [rows_out] is the number of distinct
    deduplication keys among the mapped rows of the input, and [files] is
    the number of CSV files of the directory, those without any record
    included. *)
Theorem combine_csvs_counts (input_dir : string)
    (listing : list DirEntry) (disk disk' : CombineCsvs.Disk)
    (t : CombineCsvs.Totals) :
  CombineCsvs.combine_csvs input_dir listing disk = (Returned t, disk') ->
  let csvs := CombineCsvs.list_csvs listing in
  let header := CombineCsvs.first_header csvs in
  CombineCsvs.rows_out t
  = List.length (remove_dups (Spec.dedup_key header
                                <$> Spec.mapped_rows header csvs))
  /\ CombineCsvs.files t = List.length csvs
  /\ CombineCsvs.files t
     = List.length (filter (fun e => is_csv_file e = true) listing).
Proof.
  intros Hrun csvs header.
  apply combine_csvs_Returned in Hrun as (_ & _ & -> & _).
  cbn [CombineCsvs.rows_out CombineCsvs.files]. fold csvs header.
  split; [|split; [done|]].
  - rewrite <- (keep_first_distinct_keys (Spec.dedup_key header)).
    by rewrite length_fmap.
  - unfold csvs. by rewrite list_csvs_perm.
Qed.

Lemma combine_csvs_counts_witness :
  CombineCsvs.combine_csvs "in" [Scenario.b_csv; Scenario.empty_csv;
                                 Scenario.notes_txt; Scenario.a_csv]
    Scenario.fresh_disk
  = (Returned (CombineCsvs.mkTotals 3 4 1 3),
     CombineCsvs.mkDisk true (Some Scenario.merged))
  /\ (3 = List.length
            (filter (fun e => is_csv_file e = true)
                    [Scenario.b_csv; Scenario.empty_csv;
                     Scenario.notes_txt; Scenario.a_csv]))%nat.
Proof.
  assert (CombineCsvs.combine_csvs "in" [Scenario.b_csv; Scenario.empty_csv;
                                         Scenario.notes_txt; Scenario.a_csv]
            Scenario.fresh_disk
          = (Returned (CombineCsvs.mkTotals 3 4 1 3),
             CombineCsvs.mkDisk true (Some Scenario.merged))) as Hrun
    by (vm_compute; reflexivity).
  split; [exact Hrun|].
  exact (proj2 (proj2 (combine_csvs_counts _ _ _ _ _ Hrun))).
Defined.

(** ** Mapping a file to its own header, and to a foreign one *)

Section OwnHeader.
Import CombineCsvs Spec.

Lemma idx_by_name_NoDup (header : Row) (i : nat) (name : string) :
  NoDup header -> header !! i = Some name ->
  idx_by_name header !! name = Some i.
Proof.
  intros Hnd Hi. apply idx_by_name_Some. split; [done|].
  intros j Hj. by rewrite (NoDup_lookup header i j name Hnd Hi Hj).
Qed.

Lemma row_to_dst_own_header_cells (header row : Row) :
  NoDup header ->
  row_to_dst row (build_index_map header header)
  = resize (List.length header) ""%string row.
Proof.
  intros Hnd. rewrite row_to_dst_cells.
  apply list_eq. intros i. rewrite list_lookup_fmap.
  destruct (header !! i) as [name|] eqn:Hi; simpl.
  - rewrite (idx_by_name_NoDup header i name Hnd Hi).
    apply lookup_lt_Some in Hi as Hlt. unfold cell.
    rewrite resize_spec. destruct (row !! i) as [c|] eqn:Hc; simpl.
    + rewrite lookup_app_l by (rewrite length_take; apply lookup_lt_Some in Hc; lia).
      by rewrite lookup_take_lt, Hc.
    + apply lookup_ge_None in Hc.
      rewrite lookup_app_r by (rewrite length_take; lia).
      rewrite length_take, lookup_replicate_2; [done|lia].
  - apply lookup_ge_None in Hi. symmetry. apply lookup_ge_None.
    by rewrite length_resize.
Qed.

Lemma row_to_dst_foreign (src_header canon row : Row) :
  (forall name, name ∈ canon -> name ∉ src_header) ->
  row_to_dst row (build_index_map src_header canon)
  = replicate (List.length canon) ""%string.
Proof.
  intros Hdisj. rewrite row_to_dst_cells.
  apply list_eq. intros i. rewrite list_lookup_fmap.
  destruct (canon !! i) as [name|] eqn:Hi; simpl.
  - rewrite (proj2 (idx_by_name_None src_header name)).
    + symmetry. apply lookup_replicate_2. by apply lookup_lt_Some in Hi.
    + apply Hdisj. by apply list_elem_of_lookup_2 in Hi.
  - apply lookup_ge_None in Hi. symmetry. apply lookup_ge_None.
    by rewrite length_replicate.
Qed.
End OwnHeader.

(** X8. Under the mapping of a header without repeated names to itself,
    [row_to_dst] returns the row cut or filled with empty strings to the
    length of the header; a row of that length is returned as it is. *)
Theorem row_to_dst_own_header (header row : Row) :
  NoDup header ->
  CombineCsvs.row_to_dst row (CombineCsvs.build_index_map header header)
  = resize (List.length header) ""%string row
  /\ (List.length row = List.length header ->
      CombineCsvs.row_to_dst row (CombineCsvs.build_index_map header header)
      = row).
Proof.
  intros Hnd. rewrite row_to_dst_own_header_cells by done.
  split; [done|]. intros Hlen. by apply resize_all_alt.
Qed.

Lemma row_to_dst_own_header_witness :
  NoDup (["id"; "val"] : Row)
  /\ CombineCsvs.row_to_dst ["1"; "x"; "extra"]
       (CombineCsvs.build_index_map ["id"; "val"] ["id"; "val"])
     = resize 2 ""%string ["1"; "x"; "extra"]
  /\ CombineCsvs.row_to_dst ["1"; "x"]
       (CombineCsvs.build_index_map ["id"; "val"] ["id"; "val"])
     = ["1"; "x"].
Proof.
  assert (NoDup (["id"; "val"] : Row)) as Hnd
    by (apply (bool_decide_unpack (NoDup _)); vm_compute; exact I).
  split; [exact Hnd|]. split.
  - exact (proj1 (row_to_dst_own_header ["id"; "val"] ["1"; "x"; "extra"] Hnd)).
  - apply (proj2 (row_to_dst_own_header ["id"; "val"] ["1"; "x"] Hnd)).
    reflexivity.
Defined.

(** X9. A directory with one CSV file whose header is not empty and has no
    repeated name, whose rows have the length of the header and pairwise
    distinct deduplication keys, is merged into a copy of that file: all
    rows are written, none is skipped. *)
Theorem combine_csvs_single_clean_file (input_dir : string) (f : DirEntry)
    (header : Row) (rows : list Row) (disk : CombineCsvs.Disk) :
  is_csv_file f = true ->
  entry_records f = header :: rows ->
  header <> [] ->
  NoDup header ->
  (forall r, r ∈ rows -> List.length r = List.length header) ->
  NoDup (Spec.dedup_key header <$> rows) ->
  CombineCsvs.combine_csvs input_dir [f] disk
  = (Returned (CombineCsvs.mkTotals 1 (List.length rows) 0 (List.length rows)),
     CombineCsvs.mkDisk true (Some (header :: rows))).
Proof.
  intros Hcsv Hrec Hne Hnd Hlen Hkeys.
  pose proof (list_csvs_singleton f Hcsv) as Hlist.
  pose proof (first_header_singleton f header rows Hne Hrec) as Hfirst.
  assert (Spec.mapped_rows header [f] = rows) as Hmapped.
  { unfold Spec.mapped_rows, Spec.mapped_file. simpl. rewrite Hrec, app_nil_r.
    rewrite <- (list_fmap_id rows) at 2. apply list_fmap_ext.
    intros i r Hr. simpl. rewrite row_to_dst_own_header_cells by done.
    apply resize_all_alt. symmetry. apply Hlen.
    by apply list_elem_of_lookup_2 in Hr. }
  assert (Spec.keep_first (Spec.dedup_key header) [] rows = rows) as Hkept.
  { apply keep_first_all; [done|]. intros r _. apply not_elem_of_nil. }
  destruct (combine_csvs_cases input_dir [f] disk)
    as [[Hnil _]|[(_ & Hnil & _)|(_ & _ & ->)]].
  - by rewrite Hlist in Hnil.
  - by rewrite Hlist, Hfirst in Hnil.
  - by rewrite Hlist, Hfirst, Hmapped, Hkept, Nat.sub_diag.
Qed.

Lemma combine_csvs_single_clean_file_witness :
  CombineCsvs.combine_csvs "in" [Scenario.a_csv] Scenario.fresh_disk
  = (Returned (CombineCsvs.mkTotals 1 2 0 2),
     CombineCsvs.mkDisk true (Some [["id"; "val"]; ["1"; "x"]; ["2"; "y"]])).
Proof.
  apply (combine_csvs_single_clean_file "in" Scenario.a_csv ["id"; "val"]
           [["1"; "x"]; ["2"; "y"]] Scenario.fresh_disk).
  - reflexivity.
  - reflexivity.
  - discriminate.
  - apply (bool_decide_unpack (NoDup _)). vm_compute. exact I.
  - intros r [->| ->%list_elem_of_singleton]%elem_of_cons; reflexivity.
  - apply (bool_decide_unpack (NoDup _)). vm_compute. exact I.
Defined.

(** X10. A file whose header has none of the names of the canonical header
    (a file that starts with a blank line, for one) gives for each of its
    rows the row of empty strings, whatever the row holds. *)
Theorem row_to_dst_foreign_header (src_header canon row : Row) :
  (forall name, name ∈ canon -> name ∉ src_header) ->
  CombineCsvs.row_to_dst row (CombineCsvs.build_index_map src_header canon)
  = replicate (List.length canon) ""%string.
Proof. apply row_to_dst_foreign. Qed.

Lemma row_to_dst_foreign_header_witness :
  (forall name, name ∈ (["id"; "val"] : Row) -> name ∉ ([] : Row))
  /\ CombineCsvs.row_to_dst ["9"; "q"]
       (CombineCsvs.build_index_map [] ["id"; "val"])
     = replicate 2 ""%string.
Proof.
  assert (forall name, name ∈ (["id"; "val"] : Row) -> name ∉ ([] : Row))
    as Hdisj by (intros name _; apply not_elem_of_nil).
  split; [exact Hdisj|].
  exact (row_to_dst_foreign_header [] ["id"; "val"] ["9"; "q"] Hdisj).
Defined.

(** ** The message that is hashed *)

Section HashMessage.
Import CombineCsvs Spec Ref.

Lemma decode_encode_char (c : ascii) (bs : list Z) :
  decode_utf8 (PyStr.encode_char c ++ bs) = String c (decode_utf8 bs).
Proof. by destruct c as [[] [] [] [] [] [] [] []]. Qed.

Lemma decode_encode_utf8 (s : string) : decode_utf8 (PyStr.encode_utf8 s) = s.
Proof.
  induction s as [|c s IH]; [done|].
  cbn [PyStr.encode_utf8]. by rewrite decode_encode_char, IH.
Qed.

Lemma encode_utf8_inj (s1 s2 : string) :
  PyStr.encode_utf8 s1 = PyStr.encode_utf8 s2 -> s1 = s2.
Proof.
  intros H. by rewrite <- (decode_encode_utf8 s1), H, decode_encode_utf8.
Qed.

Lemma string_app_cons (c : ascii) (s t : string) :
  (String c s ++ t)%string = String c (s ++ t).
Proof. done. Qed.

Lemma string_app_assoc (s t u : string) :
  ((s ++ t) ++ u)%string = (s ++ (t ++ u))%string.
Proof.
  induction s as [|c s IH]; [done|].
  by rewrite !string_app_cons, IH.
Qed.

Lemma string_app_nil (s : string) : (EmptyString ++ s)%string = s.
Proof. done. Qed.

Lemma nul_app (s : string) : (NUL ++ s)%string = String Ascii.zero s.
Proof. done. Qed.

(** The text before the first NUL determines the two parts. *)
Lemma app_nul_inj (a b x y : string) :
  nul_free a = true -> nul_free b = true ->
  (a ++ NUL ++ x)%string = (b ++ NUL ++ y)%string -> a = b /\ x = y.
Proof.
  revert b. induction a as [|c a IH]; intros [|d b] Ha Hb Heq;
    rewrite ?string_app_nil, ?string_app_cons, ?nul_app in Heq.
  - by injection Heq as ->.
  - injection Heq as <- _. simpl in Hb. done.
  - injection Heq as -> _. simpl in Ha. done.
  - rewrite <- !nul_app in Heq. injection Heq as -> Heq.
    simpl in Ha, Hb. apply andb_true_iff in Ha as [_ Ha], Hb as [_ Hb].
    destruct (IH b Ha Hb Heq) as [-> ->]. done.
Qed.

Lemma join_cons (c : string) (cells : Row) :
  cells <> [] ->
  PyStr.join NUL (c :: cells) = (c ++ NUL ++ PyStr.join NUL cells)%string.
Proof. by destruct cells. Qed.

Lemma join_nul_inj (r1 r2 : Row) :
  List.length r1 = List.length r2 ->
  (forall c, c ∈ r1 ++ r2 -> nul_free c = true) ->
  PyStr.join NUL r1 = PyStr.join NUL r2 -> r1 = r2.
Proof.
  revert r2. induction r1 as [|a r1 IH]; intros [|b r2] Hlen Hfree Heq;
    simpl in Hlen; try done.
  destruct r1 as [|a' r1], r2 as [|b' r2]; simpl in Hlen; try done.
  - simpl in Heq. by subst.
  - rewrite !join_cons in Heq by done.
    apply app_nul_inj in Heq as [-> Heq].
    + f_equal. apply IH; [simpl; lia| |done].
      intros c Hc. apply Hfree. apply elem_of_app in Hc as [Hc|Hc].
      * apply elem_of_app. left. by right.
      * apply elem_of_app. right. by right.
    + apply Hfree. apply elem_of_app. left. left.
    + apply Hfree. apply elem_of_app. right. left.
Qed.
End HashMessage.

(** X11. Two rows of the same length, none of whose cells holds a NUL
    character, give [hash_row] the same bytes to hash only if they are the
    same row: joining by NUL and encoding in UTF-8 loses nothing, so that
    such rows are taken for duplicates of each other only when their
    SHA-256 digests collide. *)
Theorem hash_row_message_injective (r1 r2 : Row) :
  List.length r1 = List.length r2 ->
  (forall c, c ∈ r1 ++ r2 -> Ref.nul_free c = true) ->
  PyStr.encode_utf8 (PyStr.join CombineCsvs.NUL r1)
  = PyStr.encode_utf8 (PyStr.join CombineCsvs.NUL r2) ->
  r1 = r2.
Proof.
  intros Hlen Hfree Heq. apply join_nul_inj; [done|done|].
  by apply encode_utf8_inj.
Qed.

Lemma hash_row_message_injective_witness :
  (forall c, c ∈ (["2"; "y"] : Row) ++ ["2"; "y"] -> Ref.nul_free c = true)
  /\ (["2"; "y"] : Row) = ["2"; "y"].
Proof.
  assert (forall c, c ∈ (["2"; "y"] : Row) ++ ["2"; "y"]
                    -> Ref.nul_free c = true) as Hfree.
  { intros c Hc. simpl in Hc.
    repeat (apply elem_of_cons in Hc as [->|Hc]; [reflexivity|]).
    by apply elem_of_nil in Hc. }
  split; [exact Hfree|].
  apply (hash_row_message_injective ["2"; "y"] ["2"; "y"]);
    [reflexivity|exact Hfree|reflexivity].
Defined.

(** X12. A NUL character inside a cell is not told from the separator:
    the rows [(a NUL b, c)] and [(a, b NUL c)] have the same hash, and when
    both are rows of a file deduplicated by full-row hash only the first of
    them is written. *)
Theorem hash_row_nul_ambiguity (a b c : string) :
  CombineCsvs.hash_row [(a ++ CombineCsvs.NUL ++ b)%string; c]
  = CombineCsvs.hash_row [a; (b ++ CombineCsvs.NUL ++ c)%string]
  /\ forall input_dir disk,
       CombineCsvs.combine_csvs input_dir
         [mkEntry "t.csv" true
            [["x"; "y"];
             [(a ++ CombineCsvs.NUL ++ b)%string; c];
             [a; (b ++ CombineCsvs.NUL ++ c)%string]]] disk
       = (Returned (CombineCsvs.mkTotals 1 2 1 1),
          CombineCsvs.mkDisk true
            (Some [["x"; "y"]; [(a ++ CombineCsvs.NUL ++ b)%string; c]])).
Proof.
  assert (CombineCsvs.hash_row [(a ++ CombineCsvs.NUL ++ b)%string; c]
          = CombineCsvs.hash_row [a; (b ++ CombineCsvs.NUL ++ c)%string])
    as Hhash.
  { unfold CombineCsvs.hash_row. cbn [PyStr.join].
    by rewrite string_app_assoc, string_app_assoc. }
  split; [exact Hhash|]. intros input_dir disk.
  set (r1 := [(a ++ CombineCsvs.NUL ++ b)%string; c]) in *.
  set (r2 := [a; (b ++ CombineCsvs.NUL ++ c)%string]) in *.
  set (f := mkEntry "t.csv" true [["x"; "y"]; r1; r2]).
  destruct (combine_csvs_cases input_dir [f] disk)
    as [[Hnil _]|[(_ & Hnil & _)|(_ & _ & ->)]]; [done|done|].
  change (CombineCsvs.list_csvs [f]) with [f].
  change (CombineCsvs.first_header [f]) with ["x"; "y"]%string.
  change (Spec.mapped_rows ["x"; "y"] [f]) with [r1; r2].
  assert (Spec.dedup_key ["x"; "y"] r1 = Spec.dedup_key ["x"; "y"] r2) as Hkey.
  { change (Spec.dedup_key ["x"; "y"] r1) with
      (Spec.ContentHash (CombineCsvs.hash_row r1)).
    change (Spec.dedup_key ["x"; "y"] r2) with
      (Spec.ContentHash (CombineCsvs.hash_row r2)).
    by rewrite Hhash. }
  cbn [Spec.keep_first]. rewrite decide_False by apply not_elem_of_nil.
  rewrite decide_True by (rewrite Hkey; left). done.
Qed.

(** ** Letter case and the key *)

Section LetterCase.
Import CombineCsvs Spec PyStr.

Lemma isspace_lower_char (c : ascii) : isspace (lower_char c) = isspace c.
Proof. by destruct c as [[] [] [] [] [] [] [] []]. Qed.

Lemma isdigit_lower_char (c : ascii) :
  isdigit_char (lower_char c) = isdigit_char c.
Proof. by destruct c as [[] [] [] [] [] [] [] []]. Qed.

Lemma point_lower_char (c : ascii) :
  Ascii.eqb (lower_char c) "."%char = Ascii.eqb c "."%char.
Proof. by destruct c as [[] [] [] [] [] [] [] []]. Qed.

Lemma lower_char_idem (c : ascii) : lower_char (lower_char c) = lower_char c.
Proof. by destruct c as [[] [] [] [] [] [] [] []]. Qed.

Lemma lower_char_digit_or_point (c : ascii) :
  digit_or_point c = true -> lower_char c = c.
Proof. by destruct c as [[] [] [] [] [] [] [] []]. Qed.

Lemma lower_idem (s : string) : lower (lower s) = lower s.
Proof.
  induction s as [|c s IH]; simpl; [done|]. by rewrite lower_char_idem, IH.
Qed.

Lemma lower_digits_points (s : string) :
  forall_chars digit_or_point s = true -> lower s = s.
Proof.
  induction s as [|c s IH]; simpl; [done|].
  intros [Hc Hs]%andb_true_iff. by rewrite lower_char_digit_or_point, IH.
Qed.

Lemma lstrip_lower (s : string) : lstrip (lower s) = lower (lstrip s).
Proof.
  induction s as [|c s IH]; simpl; [done|].
  rewrite isspace_lower_char. by destruct (isspace c).
Qed.

Lemma rstrip_lower (s : string) : rstrip (lower s) = lower (rstrip s).
Proof.
  induction s as [|c s IH]; simpl; [done|].
  rewrite IH, isspace_lower_char.
  destruct (rstrip s); simpl; [by destruct (isspace c)|done].
Qed.

Lemma strip_lower (s : string) : strip (lower s) = lower (strip s).
Proof. unfold strip. by rewrite lstrip_lower, rstrip_lower. Qed.

Lemma remove_first_lower (s : string) :
  remove_first "."%char (lower s) = lower (remove_first "."%char s).
Proof.
  induction s as [|c s IH]; simpl; [done|].
  rewrite point_lower_char. destruct (Ascii.eqb c "."%char); simpl; [done|].
  by rewrite IH.
Qed.

Lemma forall_digits_lower (s : string) :
  forall_chars isdigit_char (lower s) = forall_chars isdigit_char s.
Proof.
  induction s as [|c s IH]; simpl; [done|].
  by rewrite isdigit_lower_char, IH.
Qed.

Lemma isdigit_lower (s : string) : isdigit (lower s) = isdigit s.
Proof.
  destruct s as [|c s]; [done|]. unfold isdigit.
  change (lower (String c s)) with (String (lower_char c) (lower s)).
  cbn [forall_chars]. by rewrite isdigit_lower_char, forall_digits_lower.
Qed.

Lemma normalize_lower (val : string) :
  _normalize_for_key (lower val) = _normalize_for_key val.
Proof.
  unfold _normalize_for_key. rewrite strip_lower.
  set (s := strip val). rewrite remove_first_lower, isdigit_lower.
  destruct (isdigit (remove_first "."%char s)) eqn:Hd.
  - apply isdigit_numeric_pattern in Hd.
    unfold numeric_pattern in Hd. apply andb_true_iff in Hd as [_ Hd].
    by rewrite !(lower_digits_points s Hd).
  - apply lower_idem.
Qed.
End LetterCase.

(** X13. The key of a cell does not depend on the case of its letters:
    two cells with the same lower-case form have the same key. *)
Theorem normalize_for_key_case_insensitive (val1 val2 : string) :
  PyStr.lower val1 = PyStr.lower val2 ->
  CombineCsvs._normalize_for_key val1 = CombineCsvs._normalize_for_key val2.
Proof.
  intros Heq. by rewrite <- (normalize_lower val1), Heq, normalize_lower.
Qed.

Lemma normalize_for_key_case_insensitive_witness :
  PyStr.lower " Week 1b" = PyStr.lower " WEEK 1B"
  /\ CombineCsvs._normalize_for_key " Week 1b"
     = CombineCsvs._normalize_for_key " WEEK 1B".
Proof.
  split; [reflexivity|].
  apply normalize_for_key_case_insensitive. reflexivity.
Defined.

(** ** The column stripper on any file *)

Section StripperGeneral.
Import RemoveUnnamedColumns Spec Ref.
















End StripperGeneral.





(** ** The command line of the column stripper *)

Section StripperLoop.
Import RemoveUnnamedColumns StripperMain Ref.







End StripperLoop.

Section StripperTwice.
Import RemoveUnnamedColumns StripperMain Ref.






End StripperTwice.





(** ** The command line of the merge *)

Section CombineMainFacts.
Import CombineCsvs CombineMain.



End CombineMainFacts.



(** ** When the merge returns, and how its output grows *)

Section Growth.
Import CombineCsvs Spec.

Lemma first_header_app (csvs more : list DirEntry) :
  first_header csvs <> [] -> first_header (csvs ++ more) = first_header csvs.
Proof.
  induction csvs as [|f csvs IH]; simpl; [done|].
  destruct (read_header f); [apply IH|done].
Qed.

Lemma mapped_rows_app (canon : Row) (l1 l2 : list DirEntry) :
  mapped_rows canon (l1 ++ l2) = mapped_rows canon l1 ++ mapped_rows canon l2.
Proof. unfold mapped_rows. apply flat_map_app. Qed.

End Growth.



(** X21. Adding to the directory a CSV file that sorts after all the files
    merged so far extends the output: the header and the rows written
    before are written again in the same order, followed by rows taken in
    order from the mapped rows of the new file. *)
Theorem combine_csvs_appended_file (input_dir : string)
    (listing listing' : list DirEntry) (f : DirEntry)
    (disk disk' : CombineCsvs.Disk) (t : CombineCsvs.Totals)
    (header : Row) (rows : list Row) :
  CombineCsvs.combine_csvs input_dir listing disk = (Returned t, disk') ->
  CombineCsvs.out_csv disk' = Some (header :: rows) ->
  CombineCsvs.list_csvs listing' = CombineCsvs.list_csvs listing ++ [f] ->
  exists t' extra,
    CombineCsvs.combine_csvs input_dir listing' disk
    = (Returned t', CombineCsvs.mkDisk true (Some (header :: rows ++ extra)))
    /\ extra `sublist_of` Spec.mapped_file header f
    /\ CombineCsvs.rows_out t'
       = (CombineCsvs.rows_out t + List.length extra)%nat
    /\ CombineCsvs.rows_in t'
       = (CombineCsvs.rows_in t + List.length (Spec.data_rows f))%nat.
Proof.
  intros Hrun Hout Hlist.
  apply combine_csvs_Returned in Hrun as (_ & Hcanon & -> & ->).
  injection Hout as <- <-.
  set (csvs := CombineCsvs.list_csvs listing) in *.
  set (canon := CombineCsvs.first_header csvs) in *.
  destruct (combine_csvs_cases input_dir listing' disk)
    as [[Hnil _]|[(_ & Hnil & _)|(_ & _ & ->)]].
  - rewrite Hlist in Hnil. by destruct csvs.
  - rewrite Hlist, first_header_app in Hnil by done. done.
  - rewrite Hlist, first_header_app by done. fold canon.
    rewrite mapped_rows_app, keep_first_app, !length_app.
    assert (Spec.mapped_rows canon [f] = Spec.mapped_file canon f) as ->
      by (unfold Spec.mapped_rows; simpl; by rewrite app_nil_r).
    eexists _, _. split; [done|]. split; [apply keep_first_sublist|].
    cbn [CombineCsvs.rows_out CombineCsvs.rows_in].
    by rewrite length_mapped_file.
Qed.

Lemma combine_csvs_appended_file_witness :
  exists t' extra,
    CombineCsvs.combine_csvs "in" [Scenario.b_csv; Scenario.a_csv]
      Scenario.fresh_disk
    = (Returned t',
       CombineCsvs.mkDisk true
         (Some (["id"; "val"] :: [["1"; "x"]; ["2"; "y"]] ++ extra)))
    /\ extra `sublist_of` Spec.mapped_file ["id"; "val"] Scenario.b_csv.
Proof.
  destruct (combine_csvs_appended_file "in" [Scenario.a_csv]
              [Scenario.b_csv; Scenario.a_csv] Scenario.b_csv
              Scenario.fresh_disk
              (CombineCsvs.mkDisk true
                 (Some [["id"; "val"]; ["1"; "x"]; ["2"; "y"]]))
              (CombineCsvs.mkTotals 1 2 0 2)
              ["id"; "val"] [["1"; "x"]; ["2"; "y"]])
    as (t' & extra & Hrun & Hsub & _).
  - vm_compute. reflexivity.
  - reflexivity.
  - vm_compute. reflexivity.
  - exists t', extra. split; [exact Hrun|exact Hsub].
Defined.



(** ** Keys are fixed points of the normalisation *)

Section FloatRange.
Import PyFloat Ref.

Lemma ratio_below_scaled (n d k a b : Z) :
  0 <= n -> 0 < d -> ratio_below n d k ->
  0 <= a -> 0 <= b -> k <= b - a -> n * 2 ^ a < d * 2 ^ b.
Proof.
  intros Hn Hd Hk Ha Hb Hab. unfold ratio_below in Hk.
  destruct (0 <=? k) eqn:E.
  - apply Z.leb_le in E.
    replace b with (k + a + (b - a - k)) by lia.
    rewrite (Z.pow_add_r 2 (k + a) (b - a - k)) by lia.
    rewrite (Z.pow_add_r 2 k a) by lia.
    assert (0 < 2 ^ (b - a - k)) by (apply Z.pow_pos_nonneg; lia).
    assert (0 < 2 ^ a) by (apply Z.pow_pos_nonneg; lia).
    set (X := 2 ^ k) in *. set (Y := 2 ^ a) in *.
    set (W := 2 ^ (b - a - k)) in *.
    assert (n * Y < d * X * Y) by (apply Z.mul_lt_mono_pos_r; lia).
    assert (d * X * Y * 1 <= d * X * Y * W)
      by (apply Z.mul_le_mono_nonneg_l; nia).
    lia.
  - apply Z.leb_gt in E.
    destruct (decide (- k <= a)) as [Hle|Hgt].
    + replace a with (- k + (a + k)) by lia.
      replace b with ((a + k) + (b - a - k)) by lia.
      rewrite (Z.pow_add_r 2 (- k) (a + k)) by lia.
      rewrite (Z.pow_add_r 2 (a + k) (b - a - k)) by lia.
      assert (0 < 2 ^ (a + k)) by (apply Z.pow_pos_nonneg; lia).
      assert (0 < 2 ^ (b - a - k)) by (apply Z.pow_pos_nonneg; lia).
      set (X := 2 ^ (- k)) in *. set (Y := 2 ^ (a + k)) in *.
      set (W := 2 ^ (b - a - k)) in *.
      assert (n * X * Y < d * Y) by (apply Z.mul_lt_mono_pos_r; lia).
      assert (d * Y * 1 <= d * Y * W)
        by (apply Z.mul_le_mono_nonneg_l; nia).
      lia.
    + assert (2 ^ a <= 2 ^ (- k)) by (apply Z.pow_le_mono_r; lia).
      assert (1 <= 2 ^ b) by (apply (Z.pow_le_mono_r 2 0 b); lia).
      assert (n * 2 ^ a <= n * 2 ^ (- k))
        by (apply Z.mul_le_mono_nonneg_l; lia).
      assert (d * 1 <= d * 2 ^ b) by (apply Z.mul_le_mono_nonneg_l; lia).
      lia.
Qed.

Lemma floor_log2_ratio_upper (n d : Z) :
  0 < n -> 0 < d -> ratio_below n d (floor_log2_ratio n d + 1).
Proof.
  intros Hn Hd. unfold floor_log2_ratio.
  pose proof (Z.log2_spec n Hn) as [Hn1 Hn2].
  pose proof (Z.log2_spec d Hd) as [Hd1 Hd2].
  pose proof (Z.log2_nonneg n) as Hln. pose proof (Z.log2_nonneg d) as Hld.
  set (a := Z.log2 n) in *. set (b := Z.log2 d) in *.
  assert (ratio_below n d (a - b + 1)) as Hup.
  { unfold ratio_below. destruct (0 <=? a - b + 1) eqn:E.
    - apply Z.leb_le in E.
      assert (2 ^ Z.succ a = 2 ^ b * 2 ^ (a - b + 1)) as Heq
        by (rewrite <- Z.pow_add_r by lia; f_equal; lia).
      assert (0 < 2 ^ (a - b + 1)) by (apply Z.pow_pos_nonneg; lia).
      nia.
    - apply Z.leb_gt in E.
      assert (2 ^ b = 2 ^ Z.succ a * 2 ^ (- (a - b + 1))) as Heq
        by (rewrite <- Z.pow_add_r by lia; f_equal; lia).
      assert (0 < 2 ^ (- (a - b + 1))) by (apply Z.pow_pos_nonneg; lia).
      nia. }
  destruct (0 <=? a - b) eqn:E0.
  - apply Z.leb_le in E0. destruct (d * 2 ^ (a - b) <=? n) eqn:E1; [done|].
    apply Z.leb_gt in E1. replace (a - b - 1 + 1) with (a - b) by lia.
    unfold ratio_below. by rewrite (proj2 (Z.leb_le 0 (a - b))).
  - apply Z.leb_gt in E0. destruct (d <=? n * 2 ^ (- (a - b))) eqn:E1; [done|].
    apply Z.leb_gt in E1. replace (a - b - 1 + 1) with (a - b) by lia.
    unfold ratio_below. by rewrite (proj2 (Z.leb_gt 0 (a - b))).
Qed.

Lemma round_half_even_range (n d bound : Z) :
  0 <= n -> 0 < d -> n <= bound * d ->
  0 <= round_half_even n d <= bound.
Proof.
  intros Hn Hd Hb. unfold round_half_even.
  pose proof (Z.div_mod n d ltac:(lia)) as Hdm.
  pose proof (Z.mod_pos_bound n d Hd) as Hr.
  assert (0 <= n / d) as Hq by (apply Z.div_pos; lia).
  assert (n / d <= bound) as Hqb
    by (apply Z.div_le_upper_bound; lia).
  destruct (decide (n / d = bound)) as [Heq|Hne].
  - assert (n mod d = 0) as Hz by nia. rewrite Hz.
    replace (2 * 0 ?= d) with Lt by (symmetry; apply Z.compare_lt_iff; lia).
    lia.
  - destruct (2 * (n mod d) ?= d); [destruct (Z.even (n / d))| |]; lia.
Qed.

(** What [round_binary64] returns is a significand of at most 53 bits,
    scaled. *)
Lemma round_binary64_range (n d m e : Z) :
  0 <= n -> 0 < d -> round_binary64 n d = Finite m e ->
  0 <= m <= 2 ^ 53 /\ (0 <= e -> m * 2 ^ e < 2 ^ 1024).
Proof.
  intros Hn Hd. unfold round_binary64.
  destruct (n =? 0) eqn:E0.
  { intros [= <- <-]. split; [lia|]. intros _. simpl. lia. }
  apply Z.eqb_neq in E0.
  pose proof (floor_log2_ratio_upper n d ltac:(lia) Hd) as Hup.
  set (L := floor_log2_ratio n d) in *.
  set (q := Z.max (L - 52) (-1074)).
  assert (L + 1 <= 53 + q) as Hq by lia.
  destruct (0 <=? q) eqn:Eq.
  - apply Z.leb_le in Eq. rewrite (Z.max_l q 0) by lia.
    destruct (2 ^ 1024 <=? _) eqn:Ebig; [done|]. apply Z.leb_gt in Ebig.
    intros [= <- <-]. split; [|done].
    assert (0 < 2 ^ q) by (apply Z.pow_pos_nonneg; lia).
    apply round_half_even_range; [lia|nia|].
    pose proof (ratio_below_scaled n d (L + 1) 0 (53 + q) Hn Hd Hup
                  ltac:(lia) ltac:(lia) ltac:(lia)) as Hlt.
    rewrite Z.pow_add_r in Hlt by lia. change (2 ^ 0) with 1 in Hlt. lia.
  - apply Z.leb_gt in Eq. rewrite (Z.max_r q 0) by lia.
    destruct (2 ^ 1024 <=? _) eqn:Ebig; [done|].
    intros [= <- <-]. split; [|lia].
    assert (0 < 2 ^ (- q)) by (apply Z.pow_pos_nonneg; lia).
    apply round_half_even_range; [nia|lia|].
    pose proof (ratio_below_scaled n d (L + 1) (- q) 53 Hn Hd Hup
                  ltac:(lia) ltac:(lia) ltac:(lia)) as Hlt.
    lia.
Qed.

(** A whole number with a 53-bit significand is read without rounding. *)
Lemma round_binary64_scaled (m e : Z) :
  0 <= m <= 2 ^ 53 -> 0 <= e -> m * 2 ^ e < 2 ^ 1024 ->
  exists f, round_binary64 (m * 2 ^ e * 1) 1 = f
            /\ is_integer f = true /\ int f = Some (m * 2 ^ e).
Proof.
  intros Hm He Hbig. set (v := m * 2 ^ e) in *.
  assert (0 < 2 ^ e) as Hpe by (apply Z.pow_pos_nonneg; lia).
  destruct (decide (v < 2 ^ 53)) as [Hsmall|Hlarge].
  { apply round_binary64_whole; lia. }
  assert (0 < m) as Hmpos by (unfold v in *; nia).
  assert (0 < v) as Hv by lia.
  unfold round_binary64. rewrite (proj2 (Z.eqb_neq (v * 1) 0)) by lia.
  rewrite floor_log2_ratio_multiple by lia.
  assert (exists a q, 1 <= q /\ q = Z.log2 v - 52 /\ v = a * 2 ^ q)
    as (a & q & Hq1 & Hq & Hv').
  { assert (53 <= Z.log2 v) as HL by (apply Z.log2_le_pow2; lia).
    destruct (decide (m = 2 ^ 53)) as [->|Hne].
    - exists (2 ^ 52), (e + 1).
      assert (v = 2 ^ (53 + e)) as Hv2
        by (unfold v; rewrite Z.pow_add_r by lia; done).
      rewrite Hv2, Z.log2_pow2 by lia. split; [lia|]. split; [lia|].
      rewrite <- Z.pow_add_r by lia. f_equal. lia.
    - assert (Z.log2 v = Z.log2 m + e) as HLv
        by (unfold v; rewrite <- Z.shiftl_mul_pow2 by lia;
            rewrite Z.log2_shiftl by lia; done).
      assert (Z.log2 m < 53) by (apply Z.log2_lt_pow2; lia).
      exists (m * 2 ^ (e - (Z.log2 v - 52))), (Z.log2 v - 52).
      split; [lia|]. split; [done|].
      rewrite <- Z.mul_assoc, <- Z.pow_add_r by lia. unfold v.
      do 2 f_equal. lia. }
  rewrite <- Hq. rewrite (Z.max_l q (-1074)) by lia.
  rewrite (proj2 (Z.leb_le 0 q)) by lia.
  rewrite (Z.max_l q 0) by lia.
  rewrite Z.mul_1_l, Z.mul_1_r.
  assert (0 < 2 ^ q) by (apply Z.pow_pos_nonneg; lia).
  rewrite Hv', round_half_even_multiple by lia.
  rewrite <- Hv'. rewrite (proj2 (Z.leb_gt _ _)) by lia.
  eexists. split; [done|]. unfold is_integer, int.
  rewrite !(proj2 (Z.leb_le 0 q)) by lia. split; [done|]. by rewrite Hv'.
Qed.

(** The whole number that [float] gives is read back as itself. *)
Lemma round_binary64_int_fixed (n d v : Z) (f : t) :
  0 <= n -> 0 < d -> round_binary64 n d = f ->
  is_integer f = true -> int f = Some v ->
  0 <= v
  /\ exists g, round_binary64 (v * 1) 1 = g
               /\ is_integer g = true /\ int g = Some v.
Proof.
  intros Hn Hd Hf Hint Hv. destruct f as [m e|]; [|done].
  destruct (round_binary64_range n d m e Hn Hd Hf) as [Hm Hbig].
  unfold is_integer in Hint. unfold int in Hv.
  destruct (0 <=? e) eqn:Ee.
  - apply Z.leb_le in Ee. injection Hv as <-.
    assert (0 < 2 ^ e) by (apply Z.pow_pos_nonneg; lia).
    split; [nia|]. apply round_binary64_scaled; [done|done|by apply Hbig].
  - apply Z.leb_gt in Ee. injection Hv as <-.
    assert (2 <= 2 ^ (- e))
      by (change 2 with (2 ^ 1) at 1; apply Z.pow_le_mono_r; lia).
    assert (0 <= m / 2 ^ (- e)) by (apply Z.div_pos; lia).
    assert (m / 2 ^ (- e) < 2 ^ 53).
    { apply Z.div_lt_upper_bound; [lia|]. nia. }
    split; [done|]. apply round_binary64_whole; lia.
Qed.
End FloatRange.

Section Trimmed.
Import PyStr.

Lemma rstrip_idem (s : string) : rstrip (rstrip s) = rstrip s.
Proof.
  induction s as [|c s IH]; simpl; [done|].
  destruct (rstrip s) as [|c' r] eqn:E.
  - destruct (isspace c) eqn:Ec; simpl; [done|]. by rewrite Ec.
  - change (rstrip (String c (String c' r)))
      with (match rstrip (String c' r) with
            | EmptyString =>
                if isspace c then EmptyString else String c EmptyString
            | r' => String c r'
            end).
    by rewrite IH.
Qed.

Lemma lstrip_head (s : string) :
  match lstrip s with
  | EmptyString => True
  | String c _ => isspace c = false
  end.
Proof.
  induction s as [|c s IH]; simpl; [done|].
  by destruct (isspace c) eqn:Ec; [|simpl].
Qed.

Lemma rstrip_head (c : ascii) (s : string) :
  isspace c = false -> exists r, rstrip (String c s) = String c r.
Proof.
  intros Hc. simpl. rewrite Hc. destruct (rstrip s); by eexists.
Qed.

Lemma strip_idem (s : string) : strip (strip s) = strip s.
Proof.
  unfold strip. pose proof (lstrip_head s) as Hhead.
  destruct (lstrip s) as [|c t]; [done|].
  destruct (rstrip_head c t Hhead) as [r Hr].
  rewrite Hr. change (lstrip (String c r))
    with (if isspace c then lstrip r else String c r).
  rewrite Hhead, <- Hr. apply rstrip_idem.
Qed.

Lemma rstrip_digits (ds : string) :
  forall_chars is_ascii_digit ds = true -> rstrip ds = ds.
Proof.
  induction ds as [|c ds IH]; simpl; [done|].
  intros [Hc Hds]%andb_true_iff. rewrite IH by done.
  destruct ds; [|done].
  by destruct c as [[] [] [] [] [] [] [] []].
Qed.

Lemma strip_digits (ds : string) :
  forall_chars is_ascii_digit ds = true -> strip ds = ds.
Proof.
  intros Hds. unfold strip.
  assert (lstrip ds = ds) as ->; [|by apply rstrip_digits].
  destruct ds as [|c ds]; [done|]. simpl in *.
  apply andb_true_iff in Hds as [Hc _].
  by destruct c as [[] [] [] [] [] [] [] []].
Qed.
End Trimmed.

Section Decimal.
Import PyStr Spec.

Lemma string_of_uint_digits (d : Decimal.uint) :
  forall_chars is_ascii_digit (NilEmpty.string_of_uint d) = true.
Proof. induction d; simpl; done. Qed.

Lemma digits_value_of_uint_acc (d : Decimal.uint) (acc : positive) :
  digits_value_from (Z.pos acc) (NilEmpty.string_of_uint d)
  = Z.pos (Pos.of_uint_acc d acc).
Proof.
  revert acc. induction d; intros acc; simpl; [done|..];
    rewrite <- IHd; f_equal; unfold ord; simpl; lia.
Qed.

Lemma digits_value_of_uint (d : Decimal.uint) :
  digits_value (NilEmpty.string_of_uint d) = Z.of_N (Pos.of_uint d).
Proof.
  unfold digits_value. induction d; simpl; [done|exact IHd|..];
    apply (digits_value_of_uint_acc d).
Qed.

(** [str(n)] of a natural number is its decimal writing. *)
Lemma str_of_int_digits (n : Z) :
  0 <= n ->
  str_of_int n <> EmptyString
  /\ forall_chars is_ascii_digit (str_of_int n) = true
  /\ digits_value (str_of_int n) = n.
Proof.
  intros Hn. unfold str_of_int. destruct n as [|p|p]; [done| |lia].
  simpl. pose proof (Unsigned.to_uint_nonnil p) as Hnil.
  assert (NilZero.string_of_uint (Pos.to_uint p)
          = NilEmpty.string_of_uint (Pos.to_uint p)) as ->
    by (by destruct (Pos.to_uint p)).
  split; [by destruct (Pos.to_uint p)|].
  split; [apply string_of_uint_digits|].
  by rewrite digits_value_of_uint, Unsigned.of_to.
Qed.
End Decimal.

Section FixedPoint.
Import PyStr PyFloat CombineCsvs Spec.

Lemma scan_nonneg (s : string) (seen_dot : bool) (acc : Z)
    (frac digits : nat) (n : Z) (frac' digits' : nat) :
  scan s seen_dot acc frac digits = Some (n, frac', digits') ->
  0 <= acc -> 0 <= n.
Proof.
  revert seen_dot acc frac digits.
  induction s as [|c s IH]; intros seen_dot acc frac digits; simpl.
  - intros [= <- _ _]. done.
  - destruct (is_ascii_digit c) eqn:Ec.
    + intros Hscan Hacc. apply (IH _ _ _ _ Hscan).
      unfold is_ascii_digit, between in Ec. lia.
    + destruct (Ascii.eqb c "." && negb seen_dot); [|done].
      intros Hscan Hacc. by apply (IH _ _ _ _ Hscan).
Qed.

Lemma float_is_rounding (s : string) (f : PyFloat.t) :
  float s = Some f ->
  exists n d, 0 <= n /\ 0 < d /\ round_binary64 n d = f.
Proof.
  unfold float.
  destruct (scan s false 0 0%nat 0%nat) as [[[n frac] digits]|] eqn:E;
    [|done].
  destruct (digits =? 0)%nat; [done|]. intros [= <-].
  exists n, (10 ^ Z.of_nat frac). split; [by eapply scan_nonneg|].
  split; [|done]. apply Z.pow_pos_nonneg; lia.
Qed.

Lemma normalize_strip (val : string) :
  _normalize_for_key (strip val) = _normalize_for_key val.
Proof. unfold _normalize_for_key. by rewrite strip_idem. Qed.

Lemma ascii_digits_lower (ds : string) :
  forall_chars is_ascii_digit ds = true -> lower ds = ds.
Proof.
  induction ds as [|c ds IH]; simpl; [done|].
  intros [Hc Hds]%andb_true_iff. rewrite IH by done. f_equal.
  by destruct c as [[] [] [] [] [] [] [] []].
Qed.

Lemma normalize_str_of_int (n : Z) :
  0 <= n ->
  (exists g, round_binary64 (n * 1) 1 = g
             /\ is_integer g = true /\ int g = Some n) ->
  _normalize_for_key (str_of_int n) = str_of_int n.
Proof.
  intros Hn (g & Hg & Hint & Hval).
  destruct (str_of_int_digits n Hn) as (Hne & Hds & Hvalue).
  unfold _normalize_for_key. rewrite strip_digits by done.
  rewrite (isdigit_whole (str_of_int n) EmptyString (str_of_int n))
    by (done || by left).
  rewrite float_digits by done. rewrite Hvalue, Hg, Hint, Hval. done.
Qed.

(** The two forms of a key. *)
Lemma normalize_for_key_forms (val : string) :
  _normalize_for_key val = lower (strip val)
  \/ exists n, 0 <= n
               /\ (exists g, round_binary64 (n * 1) 1 = g
                             /\ is_integer g = true /\ int g = Some n)
               /\ _normalize_for_key val = str_of_int n.
Proof.
  unfold _normalize_for_key. set (s := strip val).
  destruct (isdigit (remove_first "." s)); [|by left].
  destruct (float s) as [f|] eqn:Ef; [|by left].
  destruct (is_integer f) eqn:Eint; [|by left].
  destruct (int f) as [v|] eqn:Ev; [|by left].
  right. exists v.
  destruct (float_is_rounding s f Ef) as (n & d & Hn & Hd & Hf).
  destruct (round_binary64_int_fixed n d v f Hn Hd Hf Eint Ev) as [Hv Hg].
  done.
Qed.
End FixedPoint.

(** X23. The key of a cell is in normal form: normalising it again gives it
    back, it has no blank at either end, and it is its own lower case. *)
Theorem normalize_for_key_idempotent (val : string) :
  let key := CombineCsvs._normalize_for_key val in
  CombineCsvs._normalize_for_key key = key
  /\ PyStr.strip key = key
  /\ PyStr.lower key = key.
Proof.
  intros key. unfold key.
  destruct (normalize_for_key_forms val) as [Hlow|(n & Hn & Hg & ->)].
  - split; [|split].
    + transitivity (CombineCsvs._normalize_for_key
                      (PyStr.lower (PyStr.strip val))); [by rewrite Hlow|].
      by rewrite normalize_lower, normalize_strip.
    + by rewrite Hlow, strip_lower, strip_idem.
    + rewrite Hlow. apply lower_idem.
  - destruct (str_of_int_digits n Hn) as (_ & Hds & _).
    split; [by apply normalize_str_of_int|].
    split; [by apply strip_digits|by apply ascii_digits_lower].
Qed.

(** ** Files without the key columns *)

Section Keyless.
Import CombineCsvs Spec.

(** In the key mode a row mapped from a file that has neither key column
    has the key of two empty cells. *)
Lemma dedup_key_keyless (canon : Row) (f : DirEntry) (r : Row) :
  use_key canon = true ->
  "game_id"%string ∉ read_header f -> "play_id"%string ∉ read_header f ->
  r ∈ mapped_file canon f ->
  dedup_key canon r
  = SemanticKey [_normalize_for_key ""; _normalize_for_key ""].
Proof.
  intros Hmode Hg Hp Hr. unfold mapped_file in Hr. unfold read_header in Hg, Hp.
  destruct (entry_records f) as [|src data]; [by apply elem_of_nil in Hr|].
  apply list_elem_of_fmap in Hr as (row & -> & _).
  destruct (dedup_key_semantic canon
              (row_to_dst row (build_index_map src canon)) Hmode)
    as (g & p & Hgi & Hpi & ->).
  { by rewrite length_row_to_dst, length_build_index_map. }
  apply idx_by_name_Some in Hgi as [Hgi _], Hpi as [Hpi _].
  apply idx_by_name_None in Hg, Hp.
  rewrite row_to_dst_cells. unfold cell.
  by rewrite !list_lookup_fmap, Hgi, Hpi; simpl; rewrite Hg, Hp.
Qed.
End Keyless.

(** X24. In the key mode all the rows of the files whose header has neither
    [game_id] nor [play_id] have one and the same key, so that at most one
    of them is written: when one is, no different one is. *)
Theorem combine_csvs_keyless_files (input_dir : string)
    (listing : list DirEntry) (disk disk' : CombineCsvs.Disk)
    (t : CombineCsvs.Totals) (header : Row) (rows : list Row)
    (f1 f2 : DirEntry) (r1 r2 : Row) :
  CombineCsvs.combine_csvs input_dir listing disk = (Returned t, disk') ->
  CombineCsvs.out_csv disk' = Some (header :: rows) ->
  "game_id"%string ∈ header -> "play_id"%string ∈ header ->
  "game_id"%string ∉ CombineCsvs.read_header f1 ->
  "play_id"%string ∉ CombineCsvs.read_header f1 ->
  "game_id"%string ∉ CombineCsvs.read_header f2 ->
  "play_id"%string ∉ CombineCsvs.read_header f2 ->
  r1 ∈ Spec.mapped_file header f1 -> r2 ∈ Spec.mapped_file header f2 ->
  r1 ∈ rows -> r1 <> r2 -> r2 ∉ rows.
Proof.
  intros Hrun Hout Hg Hp Hg1 Hp1 Hg2 Hp2 Hr1 Hr2 Hin1 Hne Hin2.
  apply combine_csvs_Returned in Hrun as (_ & _ & _ & ->).
  injection Hout as <- <-. apply Hne.
  set (canon := CombineCsvs.first_header (CombineCsvs.list_csvs listing)) in *.
  assert (Spec.use_key canon = true) as Hmode by (by apply use_key_true).
  eapply (NoDup_fmap_elem_inj (Spec.dedup_key canon)); [|exact Hin1|exact Hin2|].
  - apply keep_first_keys.
  - by rewrite (dedup_key_keyless canon f1 r1), (dedup_key_keyless canon f2 r2).
Qed.

Lemma combine_csvs_keyless_files_witness :
  (["" ; ""; "8"] : Row)
  ∉ [["7"; "1.0"; "12"]; ["7.0"; "2"; "ABC"]; [""; ""; "3"]].
Proof.
  apply (combine_csvs_keyless_files "in"
           [Demo.yards_csv; Scenario.plays_csv] Scenario.fresh_disk
           (CombineCsvs.mkDisk true
              (Some [["game_id"; "play_id"; "yards"];
                     ["7"; "1.0"; "12"]; ["7.0"; "2"; "ABC"];
                     [""; ""; "3"]]))
           (CombineCsvs.mkTotals 2 5 2 3)
           ["game_id"; "play_id"; "yards"]
           [["7"; "1.0"; "12"]; ["7.0"; "2"; "ABC"]; [""; ""; "3"]]
           Demo.yards_csv Demo.yards_csv [""; ""; "3"] [""; ""; "8"]).
  - vm_compute. reflexivity.
  - reflexivity.
  - apply (bool_decide_unpack _). vm_compute. exact I.
  - apply (bool_decide_unpack _). vm_compute. exact I.
  - apply (bool_decide_unpack _). vm_compute. exact I.
  - apply (bool_decide_unpack _). vm_compute. exact I.
  - apply (bool_decide_unpack _). vm_compute. exact I.
  - apply (bool_decide_unpack _). vm_compute. exact I.
  - apply (bool_decide_unpack _). vm_compute. exact I.
  - apply (bool_decide_unpack _). vm_compute. exact I.
  - apply (bool_decide_unpack _). vm_compute. exact I.
  - discriminate.
Defined.
